(** * config_switcher.py: the .env patcher, its credential check and its backup step

    A shallow embedding of [src/config_switcher.py].

    Text.  A Python [str] is a sequence of Unicode code points; it is
    modelled as [list N].  ASCII literals of the source are written with
    [py "..."].  A file is modelled by the text [Path.read_text] returns
    for it.

    Regular expressions.  The source builds two patterns by interpolating
    a key into [^{key}=.*$] and [^{key}=(.+)$] and runs them with
    [re.MULTILINE].  The embedding reads the key as a literal (every key of
    the catalog is made of capital letters and underscores, which have no
    special meaning in a pattern) and the replacement [{key}={value}] as a
    literal too (no value of the catalog holds a backslash).  The two
    readings are exact for keys made of capital letters and underscores
    ([literal_key]) and for values without a backslash ([literal_value]);
    every statement below about a key or a value from outside the catalog
    carries them as hypotheses.  With
    [re.MULTILINE], [^] holds at offset 0 and right after each line feed,
    [$] holds at the end of the text and right before each line feed, and
    [.] is any code point but the line feed. *)

From Stdlib Require Import String Ascii List NArith ZArith Bool Arith Lia.
Import ListNotations.

(** ** Text *)

Module Text.

Definition char := N.
Definition str := list char.

Definition LF : char := 10%N.
Definition EQ : char := 61%N.

(** An ASCII literal of the source as a [str]. *)
Definition py (s : string) : str := map N_of_ascii (list_ascii_of_string s).

Fixpoint str_eqb (a b : str) : bool :=
  match a, b with
  | [], [] => true
  | x :: a', y :: b' => N.eqb x y && str_eqb a' b'
  | _, _ => false
  end.

(** [s.startswith(p)] *)
Fixpoint starts_with (p s : str) : bool :=
  match p, s with
  | [], _ => true
  | x :: p', y :: s' => N.eqb x y && starts_with p' s'
  | _ :: _, [] => false
  end.

(** The code points [.*] consumes from the head of [s]: all up to the
    next line feed or the end of the text. *)
Fixpoint dot_star (s : str) : str :=
  match s with
  | [] => []
  | c :: s' => if N.eqb c LF then [] else c :: dot_star s'
  end.

(** The text split at its line feeds, as [s.split("\n")] does: never
    empty, and no piece holds a line feed. *)
Fixpoint lines (s : str) : list str :=
  match s with
  | [] => [[]]
  | c :: s' =>
      if N.eqb c LF then [] :: lines s'
      else match lines s' with
           | l :: ls => (c :: l) :: ls
           | [] => [[c]]
           end
  end.

(** ["\n".join(ls)] *)
Fixpoint unlines (ls : list str) : str :=
  match ls with
  | [] => []
  | l :: ls' =>
      match ls' with
      | [] => l
      | _ :: _ => l ++ LF :: unlines ls'
      end
  end.

Definition no_lf (s : str) : Prop := ~ In LF s.
Definition no_eq (s : str) : Prop := ~ In EQ s.

Definition no_lfb (s : str) : bool := negb (existsb (N.eqb LF) s).
Definition no_eqb (s : str) : bool := negb (existsb (N.eqb EQ) s).

(** [str.isspace] on one code point, after CPython's
    [_PyUnicode_IsWhitespace]. *)
Definition isspace (c : char) : bool :=
  ((9 <=? c) && (c <=? 13) || (28 <=? c) && (c <=? 32)
   || (c =? 133) || (c =? 160) || (c =? 5760)
   || (8192 <=? c) && (c <=? 8202)
   || (c =? 8232) || (c =? 8233) || (c =? 8239) || (c =? 8287)
   || (c =? 12288))%N.

Fixpoint lstrip (s : str) : str :=
  match s with
  | [] => []
  | c :: s' => if isspace c then lstrip s' else s
  end.

Definition rstrip (s : str) : str := rev (lstrip (rev s)).

(** [s.strip()] *)
Definition strip (s : str) : str := rstrip (lstrip s).

End Text.

Import Text.

(** ** The two patterns of the source, run as [re] runs them *)

Module Re.

Section Pattern.

Variable key : str.

(** The literal head [{key}=] of both patterns. *)
Definition head : str := key ++ [EQ].

(** [^{key}=.*$] tried at one offset: [bol] tells whether [^] holds there,
    [s] is the text from that offset on.  The result is the length of the
    match.  After the greedy [.*] the text is at a line feed or at its end,
    so [$] holds. *)
Definition match_assign (bol : bool) (s : str) : option nat :=
  if bol && starts_with head s
  then Some (length head + length (dot_star (skipn (length head) s)))
  else None.

(** [^{key}=(.+)$] tried at one offset; the result is group 1.  [.+] needs
    one code point at least. *)
Definition match_value (bol : bool) (s : str) : option str :=
  if bol && starts_with head s
  then match dot_star (skipn (length head) s) with
       | [] => None
       | v => Some v
       end
  else None.

(** [re.search(pattern, content, re.MULTILINE)] for the first pattern, as a
    truth value: the offsets are tried from left to right. *)
Fixpoint search_assign (bol : bool) (s : str) : bool :=
  match s with
  | [] => false
  | c :: s' =>
      match match_assign bol s with
      | Some _ => true
      | None => search_assign (N.eqb c LF) s'
      end
  end.

(** [re.search(pattern, content, re.MULTILINE)] for the second pattern:
    group 1 of the leftmost match. *)
Fixpoint search_value (bol : bool) (s : str) : option str :=
  match s with
  | [] => None
  | c :: s' =>
      match match_value bol s with
      | Some v => Some v
      | None => search_value (N.eqb c LF) s'
      end
  end.

(** [re.sub(pattern, repl, content, flags=re.MULTILINE)] for the first
    pattern.  The text is walked from left to right; at a match the
    replacement is emitted and the [skip] code points of the match the
    walk still stands on are dropped; anywhere else the code point is
    copied. *)
Fixpoint sub_assign (repl : str) (skip : nat) (bol : bool) (s : str) : str :=
  match s with
  | [] => []
  | c :: s' =>
      match skip with
      | S n => sub_assign repl n (N.eqb c LF) s'
      | O =>
          match match_assign bol s with
          | Some (S n) => repl ++ sub_assign repl n (N.eqb c LF) s'
          | _ => c :: sub_assign repl 0 (N.eqb c LF) s'
          end
      end
  end.

End Pattern.

End Re.

(** ** [update_env_variable] *)

(** [f'{key}={value}'] *)
Definition assignment (key value : str) : str := key ++ EQ :: value.

Definition update_env_variable (content key value : str) : str :=
  let replacement := assignment key value in
  if Re.search_assign key true content
  then Re.sub_assign key replacement 0 true content
  else content ++ LF :: replacement.

(** The loop of [apply_config] over [config.items()], a dict in insertion
    order. *)
Definition apply_entries (content : str) (config : list (str * str)) : str :=
  fold_left (fun c kv => update_env_variable c (fst kv) (snd kv)) config content.

(** ** The preset catalog *)

Definition nl : string := String (ascii_of_nat 10) EmptyString.

(** One value of the dict [get_configurations] returns. *)
Record config_data := ConfigData {
  name : str;
  config : list (str * str);
  required_keys : list str;
  description : str
}.

Definition get_configurations : list (str * config_data) :=
  [ (py "openrouter",
     ConfigData (py "OpenRouter (Latest Anthropic)")
       [ (py "FAST_LLM", py "openrouter:anthropic/claude-3.5-haiku");
         (py "SMART_LLM", py "openrouter:anthropic/claude-sonnet-4");
         (py "STRATEGIC_LLM", py "openrouter:anthropic/claude-opus-4.1");
         (py "OPENROUTER_LIMIT_RPS", py "2.0") ]
       [ py "OPENROUTER_API_KEY" ]
       (py "Uses OpenRouter with the latest Anthropic models (Opus 4.1, Sonnet 4, Haiku 3.5)."));
    (py "openrouter_budget",
     ConfigData (py "OpenRouter (Budget)")
       [ (py "FAST_LLM", py "openrouter:anthropic/claude-3-haiku");
         (py "SMART_LLM", py "openrouter:anthropic/claude-3.5-sonnet");
         (py "STRATEGIC_LLM", py "openrouter:anthropic/claude-3.7-sonnet");
         (py "OPENROUTER_LIMIT_RPS", py "1.0") ]
       [ py "OPENROUTER_API_KEY" ]
       (py "Cost-optimized OpenRouter configuration with older but reliable Anthropic models."));
    (py "openrouter_premium",
     ConfigData (py "OpenRouter (Premium)")
       [ (py "FAST_LLM", py "openrouter:anthropic/claude-sonnet-4");
         (py "SMART_LLM", py "openrouter:anthropic/claude-opus-4");
         (py "STRATEGIC_LLM", py "openrouter:anthropic/claude-opus-4.1");
         (py "OPENROUTER_LIMIT_RPS", py "2.0") ]
       [ py "OPENROUTER_API_KEY" ]
       (py "High-performance OpenRouter configuration with the absolute latest Anthropic models."));
    (py "openai",
     ConfigData (py "OpenAI (Direct)")
       [ (py "FAST_LLM", py "openai:gpt-4o-mini");
         (py "SMART_LLM", py "openai:gpt-4o");
         (py "STRATEGIC_LLM", py "openai:o1-mini") ]
       [ py "OPENAI_API_KEY" ]
       (py "Direct OpenAI API access with their latest models."));
    (py "ollama",
     ConfigData (py "Ollama (Local)")
       [ (py "FAST_LLM", py "ollama:llama3");
         (py "SMART_LLM", py "ollama:llama3");
         (py "STRATEGIC_LLM", py "ollama:llama3");
         (py "OLLAMA_BASE_URL", py "http://localhost:11434") ]
       [ ]
       (py "Local Ollama models (requires Ollama to be running locally)."));
    (py "anthropic",
     ConfigData (py "Anthropic (Direct)")
       [ (py "FAST_LLM", py "anthropic:claude-3-haiku-20240307");
         (py "SMART_LLM", py "anthropic:claude-3-5-sonnet-20241022");
         (py "STRATEGIC_LLM", py "anthropic:claude-3-opus-20240229") ]
       [ py "ANTHROPIC_API_KEY" ]
       (py "Direct Anthropic API access with Claude models.")) ].

(** ** The credential check on a text *)

(** The test of one key in the loop of [check_required_keys]:
    [not match or not match.group(1).strip()]. *)
Definition key_missing (content key : str) : bool :=
  match Re.search_value key true content with
  | None => true
  | Some group1 =>
      match strip group1 with
      | [] => true
      | _ :: _ => false
      end
  end.

(** The loop itself: [missing_keys] starts empty and grows by
    [missing_keys.append(key)]. *)
Definition missing_keys_of (content : str) (keys : list str) : list str :=
  fold_left
    (fun missing_keys key =>
       if key_missing content key then missing_keys ++ [key] else missing_keys)
    keys [].

(** ** Files *)

Module FS.

(** The two paths of the source: [Path(".env")] and [Path(".env.backup")]. *)
Inductive path := DotEnv | DotEnvBackup.

(** A write that happened, with the text written. *)
Inductive event := Wrote (p : path) (c : str).

(** The working directory: each of the two files is absent or holds a
    text.  [trace] lists the writes so far, oldest first. *)
Record fs := Fs {
  dot_env : option str;
  dot_env_backup : option str;
  trace : list event
}.

Inductive exn := FileNotFoundError | EOFError.

(** A computation on the working directory that returns or raises; the
    writes made before a raise stay. *)
Definition io (A : Type) : Type := fs -> (exn + A) * fs.

Definition ret {A} (a : A) : io A := fun st => (inr a, st).

Definition raise {A} (e : exn) : io A := fun st => (inl e, st).

Definition bind {A B} (m : io A) (k : A -> io B) : io B :=
  fun st =>
    match m st with
    | (inl e, st') => (inl e, st')
    | (inr a, st') => k a st'
    end.

Definition file (p : path) (st : fs) : option str :=
  match p with
  | DotEnv => dot_env st
  | DotEnvBackup => dot_env_backup st
  end.

(** [Path.exists] *)
Definition exists_ (p : path) : io bool :=
  fun st => (inr (match file p st with Some _ => true | None => false end), st).

(** [Path.read_text] *)
Definition read_text (p : path) : io str :=
  fun st =>
    match file p st with
    | Some c => (inr c, st)
    | None => (inl FileNotFoundError, st)
    end.

(** [Path.write_text]: the file is created or fully overwritten. *)
Definition write_text (p : path) (c : str) : io unit :=
  fun st =>
    (inr tt,
     match p with
     | DotEnv => Fs (Some c) (dot_env_backup st) (trace st ++ [Wrote p c])
     | DotEnvBackup => Fs (dot_env st) (Some c) (trace st ++ [Wrote p c])
     end).

End FS.

Import FS.

Notation "x <- m ;; k" := (bind m (fun x => k))
  (at level 61, m at next level, right associativity).

(** ** The operations on the working directory *)

Definition backup_env : io unit :=
  e <- exists_ DotEnv ;;
  if e then
    content <- read_text DotEnv ;;
    write_text DotEnvBackup content
  else ret tt.

Definition apply_config (config_name : str) (config : list (str * str)) : io unit :=
  e <- exists_ DotEnv ;;
  content <- (if negb e then ret [] else read_text DotEnv) ;;
  write_text DotEnv (apply_entries content config).

Definition check_required_keys (cd : config_data) : io (list str) :=
  e <- exists_ DotEnv ;;
  if negb e then ret []
  else
    content <- read_text DotEnv ;;
    ret (missing_keys_of content (required_keys cd)).

(** ** [main] *)

(** What [main] observes of a line typed at the selection prompt:
    [choice.lower() == 'q'], the value of [int(choice)], or its
    [ValueError]. *)
Inductive choice := ChoiceQuit | ChoiceInt (n : Z) | ChoiceInvalid.

(** A line typed at a prompt: how the selection prompt reads it, and
    whether [.lower().strip() == 'y'] holds of it at the confirmation
    prompt. *)
Record line := Line { as_choice : choice; is_yes : bool }.

(** One call of [input()]: a line, or Ctrl-C. *)
Inductive input := Typed (l : line) | KeyboardInterrupt.

(** The two statements under [# Create backup before applying changes] and
    [# Apply configuration]. *)
Definition backup_then_apply (cd : config_data) : io unit :=
  _ <- backup_env ;;
  apply_config (name cd) (config cd).

(** The [while True] loop of [main]; [stdin] holds the inputs to come, and
    [input()] on an exhausted [stdin] raises [EOFError], which [main] does
    not catch. *)
Fixpoint main_loop (configurations : list (str * config_data))
    (stdin : list input) : io unit :=
  match stdin with
  | [] => raise EOFError
  | KeyboardInterrupt :: _ => ret tt
  | Typed l :: rest =>
      match as_choice l with
      | ChoiceQuit => ret tt
      | ChoiceInvalid => main_loop configurations rest
      | ChoiceInt choice_num =>
          if ((1 <=? choice_num) && (choice_num <=? Z.of_nat (length configurations)))%Z
          then
            match nth_error configurations (Z.to_nat (choice_num - 1)) with
            | None => ret tt
            | Some (_, cd) =>
                missing_keys <- check_required_keys cd ;;
                match missing_keys with
                | [] => backup_then_apply cd
                | _ :: _ =>
                    match rest with
                    | [] => raise EOFError
                    | KeyboardInterrupt :: _ => ret tt
                    | Typed confirm :: rest' =>
                        if is_yes confirm then backup_then_apply cd
                        else main_loop configurations rest'
                    end
                end
            end
          else main_loop configurations rest
      end
  end.

(** The listing [main] prints first: one credential check per preset. *)
Fixpoint list_configurations (configurations : list (str * config_data)) : io unit :=
  match configurations with
  | [] => ret tt
  | (_, cd) :: more =>
      _ <- check_required_keys cd ;;
      list_configurations more
  end.

Definition main (stdin : list input) : io unit :=
  let configurations := get_configurations in
  _ <- list_configurations configurations ;;
  main_loop configurations stdin.

(** What the two statements of [main] under [# Create backup before
    applying changes] make of the working directory [st]: when [.env]
    exists, its content goes to [.env.backup] first and the patched text
    to [.env] next; when it does not, the backup is left as it was and
    [.env] is created. *)
Definition backed_up_then_applied (cd : config_data) (st st' : fs) : Prop :=
  match dot_env st with
  | Some c =>
      st' = Fs (Some (apply_entries c (config cd))) (Some c)
               (trace st ++ [Wrote DotEnvBackup c;
                             Wrote DotEnv (apply_entries c (config cd))])
  | None =>
      st' = Fs (Some (apply_entries [] (config cd))) (dot_env_backup st)
               (trace st ++ [Wrote DotEnv (apply_entries [] (config cd))])
  end.

(** ** The line-by-line reading of a text *)

(** Line [l] assigns [key]: it begins with [key=]. *)
Definition assigns (key l : str) : bool := starts_with (key ++ [EQ]) l.

(** What an upsert of [key=value] makes of one line. *)
Definition set_line (key value l : str) : str :=
  if assigns key l then assignment key value else l.

(** The value a line gives to [key]: what follows [key=], when the line
    begins with [key=] and something follows. *)
Definition line_value (key l : str) : option str :=
  if assigns key l
  then match skipn (length (key ++ [EQ])) l with
       | [] => None
       | v => Some v
       end
  else None.

(** The value of the first line that gives [key] one. *)
Fixpoint first_value (key : str) (ls : list str) : option str :=
  match ls with
  | [] => None
  | l :: ls' =>
      match line_value key l with
      | Some v => Some v
      | None => first_value key ls'
      end
  end.

(** A text of white space only (the empty text too). *)
Definition blank (s : str) : bool := forallb isspace s.

(** A text stands at a line break: it is over, or its next code point is
    the line feed. *)
Definition at_break (s : str) : Prop :=
  match s with
  | [] => True
  | c :: _ => c = LF
  end.

(** An upsert of [key=value] on the lines of a text. *)
Definition upsert_lines (key value : str) (ls : list str) : list str :=
  if existsb (assigns key) ls
  then map (set_line key value) ls
  else ls ++ [assignment key value].

(** How many lines assign [key]. *)
Definition count_assigns (key : str) (ls : list str) : nat :=
  length (filter (assigns key) ls).

(** The credential check decided by the first line that gives the key a
    value. *)
Definition first_value_missing (content key : str) : bool :=
  match first_value key (lines content) with
  | None => true
  | Some v => blank v
  end.

(** ** Well-formed entries *)

(** A key holds neither a line feed nor [=], a value holds no line feed. *)
Definition wf_entry (kv : str * str) : Prop :=
  no_lf (fst kv) /\ no_eq (fst kv) /\ no_lf (snd kv).

(** The entries of a dict: well-formed, and no key twice. *)
Definition wf_config (cfg : list (str * str)) : Prop :=
  NoDup (map fst cfg) /\ Forall wf_entry cfg.

Definition wf_entryb (kv : str * str) : bool :=
  no_lfb (fst kv) && no_eqb (fst kv) && no_lfb (snd kv).

Fixpoint nodupb (ks : list str) : bool :=
  match ks with
  | [] => true
  | k :: ks' => negb (existsb (str_eqb k) ks') && nodupb ks'
  end.

Definition wf_configb (cfg : list (str * str)) : bool :=
  nodupb (map fst cfg) && forallb wf_entryb cfg.

(** Every line that assigns [key] reads [key=value], and there is one. *)
Definition settled (ls : list str) (kv : str * str) : Prop :=
  existsb (assigns (fst kv)) ls = true /\
  forall l, In l ls -> assigns (fst kv) l = true -> l = assignment (fst kv) (snd kv).

(** The lines of a text after every assigned key of [cfg] got its value
    in place. *)
Definition replace_present (cfg : list (str * str)) (ls : list str) : list str :=
  fold_left (fun acc kv => map (set_line (fst kv) (snd kv)) acc) cfg ls.

(** The entries of [cfg] whose key no line of [ls] assigns, in the order
    of [cfg]. *)
Definition absent_entries (ls : list str) (cfg : list (str * str)) : list (str * str) :=
  filter (fun kv => negb (existsb (assigns (fst kv)) ls)) cfg.

(** ** The statements of the specification that the code is compared with *)

(** The appending rule as the specification words it: a line feed goes
    before the new line only if the content is not empty and does not end
    with one. *)
Definition append_per_spec (content key value : str) : str :=
  match rev content with
  | [] => assignment key value
  | c :: _ =>
      if N.eqb c LF then content ++ assignment key value
      else content ++ LF :: assignment key value
  end.

(** A line matches [KEY=VALUE] with a [VALUE] that is neither empty nor
    white space only. *)
Definition gives_value (key l : str) : bool :=
  assigns key l && negb (blank (skipn (length (key ++ [EQ])) l)).

(** The credential check as the specification words it: the keys that no
    line gives a value. *)
Definition missing_per_spec (content : str) (keys : list str) : list str :=
  filter (fun key => negb (existsb (gives_value key) (lines content))) keys.

(** ** What the further properties are stated with *)

(** A code point with no special meaning in a pattern: a capital letter or
    the underscore. *)
Definition plain_key_char (c : char) : bool :=
  ((65 <=? c) && (c <=? 90) || (c =? 95))%N.

(** A key that [rf'^{key}=.*$'] reads as itself. *)
Definition literal_key (k : str) : bool := forallb plain_key_char k.

(** A replacement that [re.sub] reads as itself: no backslash. *)
Definition literal_value (v : str) : bool := negb (existsb (N.eqb 92) v).

(** The entries of a dict are all read as themselves. *)
Definition literal_entries (cfg : list (str * str)) : bool :=
  forallb (fun kv => literal_key (fst kv) && literal_value (snd kv)) cfg.

Definition literal_preset (cd : config_data) : bool :=
  forallb (fun kv => literal_key (fst kv) && literal_value (snd kv)) (config cd)
  && forallb literal_key (required_keys cd).

(** The required keys of a preset are well-formed keys and none of them is
    a key of its entries. *)
Definition credentials_apartb (cd : config_data) : bool :=
  forallb
    (fun K => no_lfb K && no_eqb K && negb (existsb (str_eqb K) (map fst (config cd))))
    (required_keys cd).

(** An input the selection prompt turns down and asks again after: not a
    number, or a number out of range. *)
Definition rejected (configurations : list (str * config_data)) (i : input) : bool :=
  match i with
  | KeyboardInterrupt => false
  | Typed l =>
      match as_choice l with
      | ChoiceQuit => false
      | ChoiceInvalid => true
      | ChoiceInt choice_num =>
          negb ((1 <=? choice_num) && (choice_num <=? Z.of_nat (length configurations)))%Z
      end
  end.

(** * Lemmas on texts *)

Section TextLemmas.

Lemma lines_not_nil (s : str) : lines s <> [].
Proof.
  destruct s as [|c s]; simpl; [discriminate|].
  destruct (N.eqb c LF); [discriminate|].
  destruct (lines s); discriminate.
Qed.

Lemma unlines_cons (l : str) (ls : list str) :
  ls <> [] -> unlines (l :: ls) = l ++ LF :: unlines ls.
Proof. destruct ls; [congruence | reflexivity]. Qed.

Lemma unlines_lines (s : str) : unlines (lines s) = s.
Proof.
  induction s as [|c s IH]; [reflexivity|].
  simpl lines. destruct (N.eqb_spec c LF) as [->|Hc].
  - rewrite unlines_cons by apply lines_not_nil. now rewrite IH.
  - pose proof (lines_not_nil s) as Hne.
    destruct (lines s) as [|l ls]; [congruence|].
    destruct ls as [|l2 ls].
    + simpl in *. now rewrite IH.
    + rewrite <- IH. rewrite !unlines_cons by discriminate. reflexivity.
Qed.

Lemma lines_no_lf (s l : str) : In l (lines s) -> no_lf l.
Proof.
  revert l. induction s as [|c s IH]; intros l; simpl lines.
  - intros [<-|[]]. intros [].
  - destruct (N.eqb_spec c LF) as [->|Hc].
    + intros [<-|H]; [intros [] | now apply IH].
    + pose proof (lines_not_nil s) as Hne.
      destruct (lines s) as [|l0 ls]; [congruence|].
      intros [<-|H].
      * intros [E|H]; [congruence|]. apply (IH l0); [now left | exact H].
      * apply IH. now right.
Qed.

Lemma lines_line (l : str) : no_lf l -> lines l = [l].
Proof.
  induction l as [|c l IH]; intros H; [reflexivity|].
  simpl. destruct (N.eqb_spec c LF) as [->|Hc].
  - exfalso. apply H. now left.
  - rewrite IH; [reflexivity|]. intros Hin. apply H. now right.
Qed.

Lemma lines_app_lf (a b : str) : no_lf a -> lines (a ++ LF :: b) = a :: lines b.
Proof.
  induction a as [|c a IH]; intros H; [reflexivity|].
  simpl. destruct (N.eqb_spec c LF) as [->|Hc].
  - exfalso. apply H. now left.
  - rewrite IH; [reflexivity|]. intros Hin. apply H. now right.
Qed.

Lemma lines_unlines (ls : list str) :
  ls <> [] -> Forall no_lf ls -> lines (unlines ls) = ls.
Proof.
  induction ls as [|l ls IH]; [congruence|]. intros _ Hall.
  inversion Hall as [|? ? Hl Hls]; subst.
  destruct ls as [|l2 ls].
  - simpl. now apply lines_line.
  - rewrite unlines_cons by discriminate.
    rewrite lines_app_lf by assumption.
    rewrite IH; [reflexivity | discriminate | assumption].
Qed.

Lemma lines_all_no_lf (s : str) : Forall no_lf (lines s).
Proof. apply Forall_forall. intros l. apply lines_no_lf. Qed.

(** Splitting distributes over a line feed in the middle of a text. *)
Lemma lines_app (a b : str) :
  lines (a ++ LF :: b) = lines a ++ lines b.
Proof.
  induction a as [|c a IH]; [reflexivity|].
  simpl. destruct (N.eqb c LF).
  - now rewrite IH.
  - rewrite IH. pose proof (lines_not_nil a) as Hne.
    destruct (lines a); [congruence | reflexivity].
Qed.

Lemma unlines_app (xs ys : list str) :
  xs <> [] -> ys <> [] -> unlines (xs ++ ys) = unlines xs ++ LF :: unlines ys.
Proof.
  induction xs as [|x xs IH]; [congruence|]. intros _ Hys.
  destruct xs as [|x2 xs].
  - simpl app. now rewrite unlines_cons.
  - change ((x :: x2 :: xs) ++ ys) with (x :: ((x2 :: xs) ++ ys)).
    rewrite unlines_cons by discriminate.
    rewrite IH by (discriminate || assumption).
    rewrite (unlines_cons x) by discriminate.
    now rewrite <- app_assoc.
Qed.

Lemma no_lf_cons (c : char) (l : str) : no_lf (c :: l) -> c <> LF /\ no_lf l.
Proof.
  intros H. split.
  - intros ->. apply H. now left.
  - intros Hin. apply H. now right.
Qed.

Lemma no_lf_app (a b : str) : no_lf a -> no_lf b -> no_lf (a ++ b).
Proof.
  intros Ha Hb Hin. apply in_app_or in Hin.
  destruct Hin; [apply Ha | apply Hb]; assumption.
Qed.

Lemma no_lfb_spec (s : str) : no_lfb s = true <-> no_lf s.
Proof.
  unfold no_lfb, no_lf. rewrite negb_true_iff. split.
  - intros H Hin. assert (existsb (N.eqb LF) s = true); [|congruence].
    apply existsb_exists. exists LF. split; [assumption | apply N.eqb_refl].
  - intros H. destruct (existsb (N.eqb LF) s) eqn:E; [|reflexivity].
    apply existsb_exists in E. destruct E as [x [Hin Hx]].
    apply N.eqb_eq in Hx. subst. contradiction.
Qed.

Lemma no_eqb_spec (s : str) : no_eqb s = true <-> no_eq s.
Proof.
  unfold no_eqb, no_eq. rewrite negb_true_iff. split.
  - intros H Hin. assert (existsb (N.eqb EQ) s = true); [|congruence].
    apply existsb_exists. exists EQ. split; [assumption | apply N.eqb_refl].
  - intros H. destruct (existsb (N.eqb EQ) s) eqn:E; [|reflexivity].
    apply existsb_exists in E. destruct E as [x [Hin Hx]].
    apply N.eqb_eq in Hx. subst. contradiction.
Qed.

Lemma starts_with_app (p r : str) : starts_with p (p ++ r) = true.
Proof. induction p as [|x p IH]; [reflexivity|]. simpl. now rewrite N.eqb_refl. Qed.

Lemma starts_with_split (p s : str) :
  starts_with p s = true -> s = p ++ skipn (length p) s.
Proof.
  revert s. induction p as [|x p IH]; intros s H; [reflexivity|].
  destruct s as [|y s]; [discriminate|]. simpl in *.
  apply andb_true_iff in H. destruct H as [Hxy H].
  apply N.eqb_eq in Hxy. subst. f_equal. now apply IH.
Qed.

(** A prefix free of line feeds is decided within the current line. *)
Lemma starts_with_line (p l rest : str) :
  no_lf p -> at_break rest ->
  starts_with p (l ++ rest) = starts_with p l.
Proof.
  revert l. induction p as [|x p IH]; intros l Hp Hr; [reflexivity|].
  apply no_lf_cons in Hp. destruct Hp as [Hx Hp].
  destruct l as [|y l]; simpl.
  - destruct rest as [|c r]; [reflexivity|]. simpl in Hr. subst c.
    destruct (N.eqb_spec x LF); [contradiction | reflexivity].
  - now rewrite IH.
Qed.

Lemma dot_star_line (l rest : str) :
  no_lf l -> at_break rest -> dot_star (l ++ rest) = l.
Proof.
  induction l as [|c l IH]; intros Hl Hr.
  - destruct rest as [|c r]; [reflexivity|]. simpl in Hr. subst c. reflexivity.
  - apply no_lf_cons in Hl. destruct Hl as [Hc Hl]. simpl.
    destruct (N.eqb_spec c LF); [contradiction|]. now rewrite IH.
Qed.

Lemma skipn_app_exact (A : Type) (a b : list A) : skipn (length a) (a ++ b) = b.
Proof. induction a; [reflexivity | assumption]. Qed.

End TextLemmas.

(** * The scans, line by line *)

Section Scan.

Variable key : str.
Hypothesis key_no_lf : no_lf key.

Lemma head_no_lf : no_lf (Re.head key).
Proof.
  unfold Re.head. apply no_lf_app; [assumption|].
  intros [H|[]]. discriminate.
Qed.

Lemma head_cons : exists x h, Re.head key = x :: h /\ x <> LF.
Proof.
  pose proof head_no_lf as H. unfold Re.head in *.
  destruct key as [|x k]; simpl in *.
  - exists EQ, []. split; [reflexivity | discriminate].
  - exists x, (k ++ [EQ]). split; [reflexivity|].
    intros ->. apply H. now left.
Qed.

Lemma assigns_nil : assigns key [] = false.
Proof.
  unfold assigns. fold (Re.head key).
  destruct head_cons as [x [h [-> _]]]. reflexivity.
Qed.

Lemma match_assign_false (s : str) : Re.match_assign key false s = None.
Proof. reflexivity. Qed.

Lemma match_assign_lf (b : bool) (r : str) : Re.match_assign key b (LF :: r) = None.
Proof.
  unfold Re.match_assign. destruct head_cons as [x [h [-> Hx]]]. simpl.
  destruct (N.eqb_spec x LF); [contradiction|]. now rewrite andb_false_r.
Qed.

Lemma match_assign_line (l rest : str) :
  no_lf l -> at_break rest ->
  Re.match_assign key true (l ++ rest)
  = if assigns key l then Some (length l) else None.
Proof.
  intros Hl Hr. unfold Re.match_assign, assigns. fold (Re.head key).
  rewrite starts_with_line by (apply head_no_lf || assumption). simpl.
  destruct (starts_with (Re.head key) l) eqn:E; [|reflexivity].
  apply starts_with_split in E.
  set (v := skipn (length (Re.head key)) l) in *.
  assert (Hv : no_lf v).
  { intros Hin. apply Hl. rewrite E. apply in_or_app. now right. }
  rewrite E at 1. rewrite <- app_assoc, skipn_app_exact.
  rewrite dot_star_line by assumption.
  rewrite E at 1. now rewrite length_app.
Qed.

Lemma match_value_lf (b : bool) (r : str) : Re.match_value key b (LF :: r) = None.
Proof.
  unfold Re.match_value. destruct head_cons as [x [h [-> Hx]]]. simpl.
  destruct (N.eqb_spec x LF); [contradiction|]. now rewrite andb_false_r.
Qed.

Lemma match_value_line (l rest : str) :
  no_lf l -> at_break rest ->
  Re.match_value key true (l ++ rest) = line_value key l.
Proof.
  intros Hl Hr. unfold Re.match_value, line_value, assigns. fold (Re.head key).
  rewrite starts_with_line by (apply head_no_lf || assumption). simpl.
  destruct (starts_with (Re.head key) l) eqn:E; [|reflexivity].
  apply starts_with_split in E.
  set (v := skipn (length (Re.head key)) l) in *.
  assert (Hv : no_lf v).
  { intros Hin. apply Hl. rewrite E. apply in_or_app. now right. }
  rewrite E at 1. rewrite <- app_assoc, skipn_app_exact.
  now rewrite dot_star_line by assumption.
Qed.

(** *** [re.sub] *)

Variable repl : str.

Lemma sub_skip (l rest : str) (b : bool) :
  no_lf l ->
  Re.sub_assign key repl (length l) b (l ++ rest)
  = Re.sub_assign key repl 0 (match l with [] => b | _ :: _ => false end) rest.
Proof.
  revert b. induction l as [|c l IH]; intros b Hl; [reflexivity|].
  apply no_lf_cons in Hl. destruct Hl as [Hc Hl]. simpl.
  rewrite IH by assumption.
  destruct (N.eqb_spec c LF); [contradiction|]. now destruct l.
Qed.

Lemma sub_break (rest : str) (b : bool) :
  at_break rest ->
  Re.sub_assign key repl 0 b rest = Re.sub_assign key repl 0 true rest.
Proof.
  destruct rest as [|c r]; [reflexivity|]. simpl at_break. intros ->.
  simpl. now rewrite !match_assign_lf.
Qed.

Lemma sub_copy (l rest : str) :
  no_lf l ->
  Re.sub_assign key repl 0 false (l ++ rest)
  = l ++ Re.sub_assign key repl 0 false rest.
Proof.
  induction l as [|c l IH]; intros Hl; [reflexivity|].
  apply no_lf_cons in Hl. destruct Hl as [Hc Hl].
  simpl. destruct (N.eqb_spec c LF); [contradiction|]. now rewrite IH.
Qed.

Lemma sub_line (l rest : str) :
  no_lf l -> at_break rest ->
  Re.sub_assign key repl 0 true (l ++ rest)
  = (if assigns key l then repl else l) ++ Re.sub_assign key repl 0 true rest.
Proof.
  intros Hl Hr. destruct l as [|c l].
  - now rewrite assigns_nil.
  - pose proof (match_assign_line (c :: l) rest Hl Hr) as M.
    apply no_lf_cons in Hl. destruct Hl as [Hc Hl].
    change ((c :: l) ++ rest) with (c :: (l ++ rest)) in *.
    simpl Re.sub_assign. rewrite M.
    destruct (N.eqb_spec c LF); [contradiction|].
    destruct (assigns key (c :: l)).
    + simpl length. cbv iota. rewrite sub_skip by assumption.
      rewrite <- (sub_break rest false Hr).
      now destruct l.
    + rewrite sub_copy by assumption. now rewrite (sub_break rest false Hr).
Qed.

Lemma sub_lines (ls : list str) :
  ls <> [] -> Forall no_lf ls ->
  Re.sub_assign key repl 0 true (unlines ls)
  = unlines (map (fun l => if assigns key l then repl else l) ls).
Proof.
  induction ls as [|l ls IH]; [congruence|]. intros _ Hall.
  inversion Hall as [|? ? Hl Hls]; subst.
  destruct ls as [|l2 ls].
  - simpl unlines. rewrite <- (app_nil_r l) at 1.
    rewrite sub_line by (assumption || exact I). simpl. apply app_nil_r.
  - rewrite unlines_cons by discriminate.
    rewrite sub_line by (assumption || exact eq_refl).
    specialize (IH ltac:(discriminate) Hls).
    remember (unlines (l2 :: ls)) as u eqn:Hu.
    simpl Re.sub_assign at 1. rewrite match_assign_lf.
    change (N.eqb LF LF) with true. rewrite IH.
    set (f := fun l0 => if assigns key l0 then repl else l0).
    change (map f (l :: l2 :: ls)) with (f l :: map f (l2 :: ls)).
    now rewrite (unlines_cons (f l) (map f (l2 :: ls))) by (simpl; discriminate).
Qed.

(** *** [re.search] *)

Lemma search_assign_break (rest : str) (b : bool) :
  at_break rest ->
  Re.search_assign key b rest = Re.search_assign key true rest.
Proof.
  destruct rest as [|c r]; [reflexivity|]. simpl at_break. intros ->.
  simpl. now rewrite !match_assign_lf.
Qed.

Lemma search_assign_copy (l rest : str) :
  no_lf l ->
  Re.search_assign key false (l ++ rest) = Re.search_assign key false rest.
Proof.
  induction l as [|c l IH]; intros Hl; [reflexivity|].
  apply no_lf_cons in Hl. destruct Hl as [Hc Hl].
  simpl. destruct (N.eqb_spec c LF); [contradiction|]. now apply IH.
Qed.

Lemma search_assign_line (l rest : str) :
  no_lf l -> at_break rest ->
  Re.search_assign key true (l ++ rest)
  = assigns key l || Re.search_assign key true rest.
Proof.
  intros Hl Hr. destruct l as [|c l].
  - now rewrite assigns_nil.
  - pose proof (match_assign_line (c :: l) rest Hl Hr) as M.
    apply no_lf_cons in Hl. destruct Hl as [Hc Hl].
    change ((c :: l) ++ rest) with (c :: (l ++ rest)) in *.
    simpl Re.search_assign. rewrite M.
    destruct (N.eqb_spec c LF); [contradiction|].
    destruct (assigns key (c :: l)); [reflexivity|].
    rewrite search_assign_copy by assumption.
    now rewrite (search_assign_break rest false Hr).
Qed.

Lemma search_assign_lines (ls : list str) :
  ls <> [] -> Forall no_lf ls ->
  Re.search_assign key true (unlines ls) = existsb (assigns key) ls.
Proof.
  induction ls as [|l ls IH]; [congruence|]. intros _ Hall.
  inversion Hall as [|? ? Hl Hls]; subst.
  destruct ls as [|l2 ls].
  - simpl unlines. rewrite <- (app_nil_r l) at 1.
    rewrite search_assign_line by (assumption || exact I). reflexivity.
  - rewrite unlines_cons by discriminate.
    rewrite search_assign_line by (assumption || exact eq_refl).
    change (existsb ?f (l :: l2 :: ls)) with (f l || existsb f (l2 :: ls)).
    specialize (IH ltac:(discriminate) Hls).
    remember (unlines (l2 :: ls)) as u eqn:Hu.
    simpl Re.search_assign at 1. rewrite match_assign_lf.
    change (N.eqb LF LF) with true. now rewrite IH.
Qed.

Lemma search_value_break (rest : str) (b : bool) :
  at_break rest ->
  Re.search_value key b rest = Re.search_value key true rest.
Proof.
  destruct rest as [|c r]; [reflexivity|]. simpl at_break. intros ->.
  simpl. now rewrite !match_value_lf.
Qed.

Lemma search_value_copy (l rest : str) :
  no_lf l ->
  Re.search_value key false (l ++ rest) = Re.search_value key false rest.
Proof.
  induction l as [|c l IH]; intros Hl; [reflexivity|].
  apply no_lf_cons in Hl. destruct Hl as [Hc Hl].
  simpl. destruct (N.eqb_spec c LF); [contradiction|]. now apply IH.
Qed.

Lemma line_value_nil : line_value key [] = None.
Proof. unfold line_value. now rewrite assigns_nil. Qed.

Lemma search_value_line (l rest : str) :
  no_lf l -> at_break rest ->
  Re.search_value key true (l ++ rest)
  = match line_value key l with
    | Some v => Some v
    | None => Re.search_value key true rest
    end.
Proof.
  intros Hl Hr. destruct l as [|c l].
  - now rewrite line_value_nil.
  - pose proof (match_value_line (c :: l) rest Hl Hr) as M.
    apply no_lf_cons in Hl. destruct Hl as [Hc Hl].
    change ((c :: l) ++ rest) with (c :: (l ++ rest)) in *.
    simpl Re.search_value. rewrite M.
    destruct (N.eqb_spec c LF); [contradiction|].
    destruct (line_value key (c :: l)); [reflexivity|].
    rewrite search_value_copy by assumption.
    now rewrite (search_value_break rest false Hr).
Qed.

Lemma search_value_lines (ls : list str) :
  ls <> [] -> Forall no_lf ls ->
  Re.search_value key true (unlines ls) = first_value key ls.
Proof.
  induction ls as [|l ls IH]; [congruence|]. intros _ Hall.
  inversion Hall as [|? ? Hl Hls]; subst.
  destruct ls as [|l2 ls].
  - simpl unlines. rewrite <- (app_nil_r l) at 1.
    rewrite search_value_line by (assumption || exact I).
    simpl. now destruct (line_value key l).
  - rewrite unlines_cons by discriminate.
    rewrite search_value_line by (assumption || exact eq_refl).
    change (first_value key (l :: l2 :: ls))
      with (match line_value key l with
            | Some v => Some v
            | None => first_value key (l2 :: ls)
            end).
    destruct (line_value key l); [reflexivity|].
    specialize (IH ltac:(discriminate) Hls).
    remember (unlines (l2 :: ls)) as u eqn:Hu.
    simpl Re.search_value at 1. rewrite match_value_lf.
    change (N.eqb LF LF) with true. now rewrite IH.
Qed.

End Scan.

(** * [update_env_variable], line by line *)

Section Upsert.

Lemma assignment_no_lf (key value : str) :
  no_lf key -> no_lf value -> no_lf (assignment key value).
Proof.
  intros Hk Hv. unfold assignment. apply no_lf_app; [assumption|].
  intros [H|H]; [discriminate | contradiction].
Qed.

Lemma assigns_assignment_self (key value : str) :
  assigns key (assignment key value) = true.
Proof.
  unfold assigns, assignment.
  change (key ++ EQ :: value) with (key ++ [EQ] ++ value).
  rewrite app_assoc. apply starts_with_app.
Qed.

Lemma assigns_split (key l : str) :
  assigns key l = true <-> exists v, l = assignment key v.
Proof.
  split.
  - intros H. apply starts_with_split in H.
    exists (skipn (length (key ++ [EQ])) l).
    rewrite H at 1. unfold assignment. now rewrite <- app_assoc.
  - intros [v ->]. apply assigns_assignment_self.
Qed.

Lemma set_line_no_lf (key value l : str) :
  no_lf key -> no_lf value -> no_lf l -> no_lf (set_line key value l).
Proof.
  intros Hk Hv Hl. unfold set_line.
  destruct (assigns key l); [now apply assignment_no_lf | assumption].
Qed.

Lemma search_assign_content (key content : str) :
  no_lf key ->
  Re.search_assign key true content = existsb (assigns key) (lines content).
Proof.
  intros Hk. rewrite <- (unlines_lines content) at 1.
  apply search_assign_lines; [assumption | apply lines_not_nil | apply lines_all_no_lf].
Qed.

Lemma sub_assign_content (key repl content : str) :
  no_lf key ->
  Re.sub_assign key repl 0 true content
  = unlines (map (fun l => if assigns key l then repl else l) (lines content)).
Proof.
  intros Hk. rewrite <- (unlines_lines content) at 1.
  apply sub_lines; [assumption | apply lines_not_nil | apply lines_all_no_lf].
Qed.

Lemma search_value_content (key content : str) :
  no_lf key ->
  Re.search_value key true content = first_value key (lines content).
Proof.
  intros Hk. rewrite <- (unlines_lines content) at 1.
  apply search_value_lines; [assumption | apply lines_not_nil | apply lines_all_no_lf].
Qed.

(** The text [update_env_variable] returns, in terms of the lines of its
    input. *)
Lemma update_env_variable_text (content key value : str) :
  no_lf key ->
  update_env_variable content key value
  = if existsb (assigns key) (lines content)
    then unlines (map (set_line key value) (lines content))
    else content ++ LF :: assignment key value.
Proof.
  intros Hk. unfold update_env_variable.
  rewrite search_assign_content by assumption.
  destruct (existsb (assigns key) (lines content)); [|reflexivity].
  now apply sub_assign_content.
Qed.

(** The lines of the text [update_env_variable] returns. *)
Lemma update_env_variable_lines (content key value : str) :
  no_lf key -> no_lf value ->
  lines (update_env_variable content key value)
  = upsert_lines key value (lines content).
Proof.
  intros Hk Hv. rewrite update_env_variable_text by assumption.
  unfold upsert_lines.
  destruct (existsb (assigns key) (lines content)).
  - apply lines_unlines.
    + pose proof (lines_not_nil content). destruct (lines content); [congruence | discriminate].
    + apply Forall_forall. intros l Hin. apply in_map_iff in Hin.
      destruct Hin as [l0 [<- Hin]].
      apply set_line_no_lf; try assumption. now apply (lines_no_lf content).
  - rewrite lines_app. f_equal. apply lines_line. now apply assignment_no_lf.
Qed.

Lemma apply_entries_lines (cfg : list (str * str)) (content : str) :
  Forall wf_entry cfg ->
  lines (apply_entries content cfg)
  = fold_left (fun ls kv => upsert_lines (fst kv) (snd kv) ls) cfg (lines content).
Proof.
  revert content. induction cfg as [|[k v] cfg IH]; intros content Hwf; [reflexivity|].
  inversion Hwf as [|? ? [Hk [_ Hv]] Hrest]; subst. simpl in *.
  unfold apply_entries in *. simpl.
  rewrite IH by assumption. now rewrite update_env_variable_lines.
Qed.

End Upsert.

(** * Several keys *)

Section Keys.

(** A line of the form [k'=...] begins with [k=] only if the keys are the
    same. *)
Lemma assigns_assignment_inv (k k' v' : str) :
  no_eq k -> no_eq k' ->
  assigns k (assignment k' v') = true -> k = k'.
Proof.
  unfold assigns, assignment. revert k'.
  induction k as [|x k IH]; intros [|y k'] Hk Hk' H; cbn [starts_with app] in H.
  - reflexivity.
  - apply andb_true_iff in H. destruct H as [H _]. apply N.eqb_eq in H.
    exfalso. apply Hk'. left. now symmetry.
  - apply andb_true_iff in H. destruct H as [H _]. apply N.eqb_eq in H.
    exfalso. apply Hk. now left.
  - apply andb_true_iff in H. destruct H as [Hxy H]. apply N.eqb_eq in Hxy.
    subst y. f_equal. apply IH; try assumption.
    + intros Hin. apply Hk. now right.
    + intros Hin. apply Hk'. now right.
Qed.

Lemma assigns_unique (k k' l : str) :
  no_eq k -> no_eq k' ->
  assigns k l = true -> assigns k' l = true -> k = k'.
Proof.
  intros Hk Hk' H H'. apply assigns_split in H'. destruct H' as [v' ->].
  now apply (assigns_assignment_inv k k' v').
Qed.

Lemma assigns_other (k k' v' : str) :
  no_eq k -> no_eq k' -> k <> k' -> assigns k (assignment k' v') = false.
Proof.
  intros Hk Hk' Hne. destruct (assigns k (assignment k' v')) eqn:E; [|reflexivity].
  exfalso. apply Hne. now apply (assigns_assignment_inv k k' v').
Qed.

(** An upsert of another key changes no line that assigns [k], and adds
    none. *)
Lemma assigns_set_line_other (k k' v' l : str) :
  no_eq k -> no_eq k' -> k <> k' ->
  assigns k (set_line k' v' l) = assigns k l.
Proof.
  intros Hk Hk' Hne. unfold set_line.
  destruct (assigns k' l) eqn:E'; [|reflexivity].
  rewrite assigns_other by assumption.
  destruct (assigns k l) eqn:E; [|reflexivity].
  exfalso. apply Hne. now apply (assigns_unique k k' l).
Qed.

Lemma existsb_assigns_set_line_other (k k' v' : str) (ls : list str) :
  no_eq k -> no_eq k' -> k <> k' ->
  existsb (assigns k) (map (set_line k' v') ls) = existsb (assigns k) ls.
Proof.
  intros Hk Hk' Hne. induction ls as [|l ls IH]; [reflexivity|].
  simpl. now rewrite assigns_set_line_other, IH.
Qed.

Lemma existsb_assigns_upsert_other (k k' v' : str) (ls : list str) :
  no_eq k -> no_eq k' -> k <> k' ->
  existsb (assigns k) (upsert_lines k' v' ls) = existsb (assigns k) ls.
Proof.
  intros Hk Hk' Hne. unfold upsert_lines.
  destruct (existsb (assigns k') ls).
  - now apply existsb_assigns_set_line_other.
  - rewrite existsb_app. simpl.
    rewrite assigns_other by assumption. now rewrite !orb_false_r.
Qed.

Lemma map_set_line_absent (k v : str) (ls : list str) :
  existsb (assigns k) ls = false -> map (set_line k v) ls = ls.
Proof.
  induction ls as [|l ls IH]; [reflexivity|]. simpl.
  intros H. apply orb_false_iff in H. destruct H as [Hl Hls].
  unfold set_line at 1. rewrite Hl. now rewrite IH.
Qed.

(** *** Settled keys *)

Lemma settled_upsert (k v : str) (ls : list str) :
  settled (upsert_lines k v ls) (k, v).
Proof.
  unfold settled, upsert_lines. simpl.
  destruct (existsb (assigns k) ls) eqn:E.
  - split.
    + apply existsb_exists in E. destruct E as [l [Hin Hl]].
      apply existsb_exists. exists (set_line k v l). split.
      * now apply in_map.
      * unfold set_line. rewrite Hl. apply assigns_assignment_self.
    + intros l Hin Hl. apply in_map_iff in Hin.
      destruct Hin as [l0 [<- Hin]]. unfold set_line in *.
      destruct (assigns k l0) eqn:E0; [reflexivity | congruence].
  - split.
    + rewrite existsb_app. simpl. rewrite assigns_assignment_self.
      now rewrite orb_true_r.
    + intros l Hin Hl. apply in_app_or in Hin. destruct Hin as [Hin|[<-|[]]].
      * assert (existsb (assigns k) ls = true); [|congruence].
        apply existsb_exists. now exists l.
      * reflexivity.
Qed.

Lemma settled_upsert_other (k v k' v' : str) (ls : list str) :
  no_eq k -> no_eq k' -> k <> k' ->
  settled ls (k, v) -> settled (upsert_lines k' v' ls) (k, v).
Proof.
  intros Hk Hk' Hne [Hex Hall]. simpl in *. split; simpl.
  - now rewrite existsb_assigns_upsert_other.
  - intros l Hin Hl. unfold upsert_lines in Hin.
    destruct (existsb (assigns k') ls).
    + apply in_map_iff in Hin. destruct Hin as [l0 [<- Hin]].
      rewrite assigns_set_line_other in Hl by assumption.
      unfold set_line. destruct (assigns k' l0) eqn:E'.
      * exfalso. apply Hne. now apply (assigns_unique k k' l0).
      * now apply Hall.
    + apply in_app_or in Hin. destruct Hin as [Hin|[<-|[]]].
      * now apply Hall.
      * rewrite assigns_other in Hl by assumption. discriminate.
Qed.

(** An upsert of a settled entry changes nothing. *)
Lemma upsert_settled (k v : str) (ls : list str) :
  settled ls (k, v) -> upsert_lines k v ls = ls.
Proof.
  intros [Hex Hall]. simpl in *. unfold upsert_lines. rewrite Hex.
  clear Hex. induction ls as [|l ls IH]; [reflexivity|]. simpl.
  rewrite IH by (intros l0 Hin; apply Hall; now right).
  f_equal. unfold set_line. destruct (assigns k l) eqn:E; [|reflexivity].
  symmetry. apply Hall; [now left | assumption].
Qed.

Lemma fold_upsert_settled (cfg : list (str * str)) (ls : list str) :
  Forall (settled ls) cfg ->
  fold_left (fun acc kv => upsert_lines (fst kv) (snd kv) acc) cfg ls = ls.
Proof.
  induction cfg as [|[k v] cfg IH]; intros H; [reflexivity|].
  inversion H as [|? ? Hkv Hrest]; subst. simpl.
  rewrite upsert_settled by assumption. now apply IH.
Qed.

Lemma settled_fold_other (cfg : list (str * str)) (k v : str) (ls : list str) :
  no_eq k -> Forall wf_entry cfg -> ~ In k (map fst cfg) ->
  settled ls (k, v) ->
  settled (fold_left (fun acc kv => upsert_lines (fst kv) (snd kv) acc) cfg ls) (k, v).
Proof.
  intros Hk. revert ls. induction cfg as [|[k' v'] cfg IH]; intros ls Hwf Hnin Hs.
  - exact Hs.
  - inversion Hwf as [|? ? [_ [Hk' _]] Hrest]; subst. simpl in *.
    apply IH; [assumption | tauto |].
    apply settled_upsert_other; try assumption.
    intros ->. apply Hnin. now left.
Qed.

(** After the loop of [apply_config] every entry is settled. *)
Lemma fold_upsert_all_settled (cfg : list (str * str)) (ls : list str) :
  wf_config cfg ->
  Forall (settled (fold_left (fun acc kv => upsert_lines (fst kv) (snd kv) acc) cfg ls)) cfg.
Proof.
  intros [Hnd Hwf]. revert ls. induction cfg as [|[k v] cfg IH]; intros ls.
  - constructor.
  - inversion Hnd as [|? ? Hnin Hnd']; subst.
    inversion Hwf as [|? ? [Hlf [Hk Hv]] Hwf']; subst. simpl in *.
    constructor.
    + apply settled_fold_other; try assumption. apply settled_upsert.
    + now apply IH.
Qed.

(** The loop of [apply_config] run twice gives what it gives run once. *)
Lemma apply_entries_idempotent (cfg : list (str * str)) (content : str) :
  wf_config cfg ->
  apply_entries (apply_entries content cfg) cfg = apply_entries content cfg.
Proof.
  intros Hwf. pose proof Hwf as [_ Hall].
  rewrite <- (unlines_lines (apply_entries (apply_entries content cfg) cfg)).
  rewrite apply_entries_lines by assumption.
  rewrite fold_upsert_settled; [apply unlines_lines|].
  rewrite apply_entries_lines by assumption.
  now apply fold_upsert_all_settled.
Qed.

End Keys.

(** * Where the loop of [apply_config] puts each entry *)

Section Placement.

Lemma replace_present_app (cfg : list (str * str)) (xs ys : list str) :
  replace_present cfg (xs ++ ys) = replace_present cfg xs ++ replace_present cfg ys.
Proof.
  unfold replace_present. revert xs ys.
  induction cfg as [|[k v] cfg IH]; intros xs ys; [reflexivity|].
  simpl. now rewrite map_app, IH.
Qed.

Lemma replace_present_other (cfg : list (str * str)) (k v : str) :
  no_eq k -> Forall wf_entry cfg -> ~ In k (map fst cfg) ->
  replace_present cfg [assignment k v] = [assignment k v].
Proof.
  intros Hk. unfold replace_present.
  induction cfg as [|[k' v'] cfg IH]; intros Hwf Hnin; [reflexivity|].
  inversion Hwf as [|? ? [_ [Hk' _]] Hrest]; subst. simpl in *.
  unfold set_line at 2. rewrite assigns_other; try assumption.
  - apply IH; [assumption | tauto].
  - intros ->. apply Hnin. now left.
Qed.

Lemma absent_entries_upsert (cfg : list (str * str)) (k v : str) (ls : list str) :
  no_eq k -> Forall wf_entry cfg -> ~ In k (map fst cfg) ->
  absent_entries (upsert_lines k v ls) cfg = absent_entries ls cfg.
Proof.
  intros Hk Hwf Hnin. unfold absent_entries. apply filter_ext_in.
  intros [k' v'] Hin. simpl. f_equal.
  rewrite Forall_forall in Hwf. destruct (Hwf _ Hin) as [_ [Hk' _]]. simpl in Hk'.
  apply existsb_assigns_upsert_other; try assumption.
  intros ->. apply Hnin. apply in_map_iff. now exists (k, v').
Qed.

(** The lines after the loop: the lines of the input, each assigned key
    set in place, then one new line per absent key, in the order of the
    entries. *)
Lemma fold_upsert_placement (cfg : list (str * str)) (ls : list str) :
  wf_config cfg ->
  fold_left (fun acc kv => upsert_lines (fst kv) (snd kv) acc) cfg ls
  = replace_present cfg ls
    ++ map (fun kv => assignment (fst kv) (snd kv)) (absent_entries ls cfg).
Proof.
  intros [Hnd Hwf]. revert ls. induction cfg as [|[k v] cfg IH]; intros ls.
  - simpl. now rewrite app_nil_r.
  - inversion Hnd as [|? ? Hnin Hnd']; subst.
    inversion Hwf as [|? ? [Hlf [Hk Hv]] Hwf']; subst. simpl in *.
    rewrite IH by assumption.
    rewrite absent_entries_upsert by assumption.
    unfold upsert_lines, absent_entries at 2. simpl.
    destruct (existsb (assigns k) ls) eqn:E; simpl.
    + reflexivity.
    + rewrite replace_present_app, replace_present_other by assumption.
      unfold replace_present at 2. simpl.
      rewrite map_set_line_absent by assumption.
      fold (replace_present cfg ls). now rewrite <- app_assoc.
Qed.

End Placement.

(** * Deciding well-formedness *)

Section Decide.

Lemma str_eqb_eq (a b : str) : str_eqb a b = true <-> a = b.
Proof.
  revert b. induction a as [|x a IH]; intros [|y b]; simpl;
    try (split; [discriminate | congruence]); [tauto|].
  rewrite andb_true_iff, N.eqb_eq, IH. split.
  - intros [-> ->]. reflexivity.
  - intros H. inversion H. tauto.
Qed.

Lemma nodupb_NoDup (ks : list str) : nodupb ks = true -> NoDup ks.
Proof.
  induction ks as [|k ks IH]; intros H; [constructor|].
  simpl in H. apply andb_true_iff in H. destruct H as [Hk Hks].
  constructor; [|now apply IH].
  intros Hin. apply negb_true_iff in Hk.
  assert (existsb (str_eqb k) ks = true); [|congruence].
  apply existsb_exists. exists k. split; [assumption | now apply str_eqb_eq].
Qed.

Lemma wf_configb_wf (cfg : list (str * str)) :
  wf_configb cfg = true -> wf_config cfg.
Proof.
  unfold wf_configb, wf_config. intros H.
  apply andb_true_iff in H. destruct H as [Hnd Hall]. split.
  - now apply nodupb_NoDup.
  - apply Forall_forall. intros kv Hin.
    rewrite forallb_forall in Hall. specialize (Hall kv Hin).
    unfold wf_entryb in Hall.
    apply andb_true_iff in Hall. destruct Hall as [Hall Hv].
    apply andb_true_iff in Hall. destruct Hall as [Hlf Heq].
    repeat split; [now apply no_lfb_spec | now apply no_eqb_spec | now apply no_lfb_spec].
Qed.

(** Every preset of the catalog has well-formed entries and well-formed
    required keys. *)
Lemma catalog_wf (id : str) (cd : config_data) :
  In (id, cd) get_configurations ->
  wf_config (config cd) /\ Forall no_lf (required_keys cd).
Proof.
  intros H. simpl in H.
  repeat (destruct H as [H|H];
          [inversion H; subst; split;
           [apply wf_configb_wf; vm_compute; reflexivity
           | apply Forall_forall; intros k Hk; apply no_lfb_spec;
             simpl in Hk; repeat (destruct Hk as [<-|Hk]; [vm_compute; reflexivity|]);
             contradiction]|]).
  contradiction.
Qed.

End Decide.

(** * The credential check, line by line *)

Section Check.

Lemma lstrip_nil (s : str) : lstrip s = [] <-> blank s = true.
Proof.
  induction s as [|c s IH]; simpl; [tauto|].
  destruct (isspace c); simpl; [assumption|]. split; discriminate.
Qed.

Lemma blank_lstrip (s : str) : blank (lstrip s) = true -> blank s = true.
Proof.
  induction s as [|c s IH]; simpl; [tauto|].
  destruct (isspace c) eqn:E; simpl; [assumption|]. now rewrite E.
Qed.

Lemma blank_rev (s : str) : blank (rev s) = blank s.
Proof.
  unfold blank. induction s as [|c s IH]; [reflexivity|].
  simpl. rewrite forallb_app, IH. simpl. rewrite andb_true_r. apply andb_comm.
Qed.

Lemma strip_nil (s : str) : strip s = [] <-> blank s = true.
Proof.
  unfold strip, rstrip. split.
  - intros H. apply blank_lstrip. rewrite <- blank_rev. apply lstrip_nil.
    destruct (lstrip (rev (lstrip s))) as [|c l]; [reflexivity|].
    simpl in H. now destruct (rev l).
  - intros H. apply lstrip_nil in H. now rewrite H.
Qed.

(** The test of one key is the test of the first line that gives it a
    value. *)
Lemma key_missing_first_value (content key : str) :
  no_lf key -> key_missing content key = first_value_missing content key.
Proof.
  intros Hk. unfold key_missing, first_value_missing.
  rewrite search_value_content by assumption.
  destruct (first_value key (lines content)) as [v|]; [|reflexivity].
  destruct (strip v) eqn:E.
  - symmetry. now apply strip_nil.
  - destruct (blank v) eqn:B; [|reflexivity].
    apply strip_nil in B. congruence.
Qed.

Lemma missing_keys_loop (content : str) (keys acc : list str) :
  fold_left
    (fun missing_keys key =>
       if key_missing content key then missing_keys ++ [key] else missing_keys)
    keys acc
  = acc ++ filter (key_missing content) keys.
Proof.
  revert acc. induction keys as [|k keys IH]; intros acc; simpl.
  - now rewrite app_nil_r.
  - rewrite IH. destruct (key_missing content k); [|reflexivity].
    now rewrite <- app_assoc.
Qed.

(** The loop keeps the keys that test missing, in their order. *)
Lemma missing_keys_of_filter (content : str) (keys : list str) :
  missing_keys_of content keys = filter (key_missing content) keys.
Proof. unfold missing_keys_of. now rewrite missing_keys_loop. Qed.

End Check.

(** * Literal keys *)

Section Literal.

Lemma literal_key_chars (K : str) (c : char) :
  literal_key K = true -> In c K -> plain_key_char c = true.
Proof. unfold literal_key. rewrite forallb_forall. intros H. apply H. Qed.

Lemma literal_key_no_lf (K : str) : literal_key K = true -> no_lf K.
Proof. intros H Hin. now pose proof (literal_key_chars K LF H Hin). Qed.

Lemma literal_key_no_eq (K : str) : literal_key K = true -> no_eq K.
Proof. intros H Hin. now pose proof (literal_key_chars K EQ H Hin). Qed.

End Literal.

(** * Upsert of one key: the claims *)

Ltac no_lf_literal := apply no_lfb_spec; vm_compute; reflexivity.

Lemma no_lf_assignment_key (K v : str) : no_lf (assignment K v) -> no_lf K.
Proof. intros H Hin. apply H. unfold assignment. apply in_or_app. now left. Qed.

Lemma assigns_false_iff (K l : str) :
  assigns K l = false <-> forall v, l <> assignment K v.
Proof.
  split.
  - intros H v ->. rewrite assigns_assignment_self in H. discriminate.
  - intros H. destruct (assigns K l) eqn:E; [|reflexivity].
    apply assigns_split in E. destruct E as [v ->]. now destruct (H v).
Qed.

Lemma count_assigns_set_line (K V : str) (ls : list str) :
  count_assigns K (map (set_line K V) ls) = count_assigns K ls.
Proof.
  unfold count_assigns. induction ls as [|l ls IH]; [reflexivity|].
  simpl. unfold set_line at 1. destruct (assigns K l) eqn:E.
  - rewrite assigns_assignment_self. simpl. now rewrite IH.
  - rewrite E. exact IH.
Qed.

Lemma count_assigns_zero (K : str) (ls : list str) :
  existsb (assigns K) ls = false -> count_assigns K ls = 0.
Proof.
  unfold count_assigns. induction ls as [|l ls IH]; [reflexivity|].
  simpl. intros H. apply orb_false_iff in H. destruct H as [-> H]. now apply IH.
Qed.

Lemma count_assigns_pos (K : str) (ls : list str) :
  existsb (assigns K) ls = true -> 1 <= count_assigns K ls.
Proof.
  unfold count_assigns. induction ls as [|l ls IH]; [discriminate|].
  simpl. destruct (assigns K l); simpl; [lia | assumption].
Qed.

Lemma count_assigns_upsert (K V : str) (ls : list str) :
  count_assigns K (upsert_lines K V ls) = Nat.max 1 (count_assigns K ls).
Proof.
  unfold upsert_lines. destruct (existsb (assigns K) ls) eqn:E.
  - rewrite count_assigns_set_line. apply count_assigns_pos in E. lia.
  - rewrite (count_assigns_zero K ls E). unfold count_assigns.
    rewrite filter_app, length_app. fold (count_assigns K ls).
    rewrite (count_assigns_zero K ls E). simpl.
    now rewrite assigns_assignment_self.
Qed.

(** C1, as the specification states it, fails on the code: from the
    content ["A=1\n"], which has no line assigning [B] and a line feed at its
    end, the upsert of [B=2] gives ["A=1\n\nB=2"], with a line feed before
    the new line all the same; this is neither ["A=1\nB=2"] nor
    ["A=1\nB=2\n"]. *)
Lemma C1_counterexample :
  existsb (assigns (py "B")) (lines (py ("A=1" ++ nl)%string)) = false /\
  update_env_variable (py ("A=1" ++ nl)%string) (py "B") (py "2")
  = py ("A=1" ++ nl ++ nl ++ "B=2")%string /\
  append_per_spec (py ("A=1" ++ nl)%string) (py "B") (py "2")
  = py ("A=1" ++ nl ++ "B=2")%string /\
  ~ (update_env_variable (py ("A=1" ++ nl)%string) (py "B") (py "2")
     = append_per_spec (py ("A=1" ++ nl)%string) (py "B") (py "2")
     \/ update_env_variable (py ("A=1" ++ nl)%string) (py "B") (py "2")
        = append_per_spec (py ("A=1" ++ nl)%string) (py "B") (py "2") ++ [LF]).
Proof.
  repeat split; try reflexivity.
  intros [H|H]; vm_compute in H; discriminate H.
Qed.

(** C1, amended: for every document D and key K, made of capital letters
    and underscores, that
    no line of D assigns, upserting K=V appends a line feed and then [K=V]
    at the end of the document, whatever the content, also when it is
    empty or ends with a line feed already; the prior text is an unchanged
    prefix of the result, and when V holds no line feed the lines of the
    result are the lines of D, unchanged and in order, followed by the one
    new line [K=V].  From ["A=1\n"], upserting B=2 gives ["A=1\n\nB=2"]. *)
Theorem C1_upsert_absent_appends (D K V : str) :
  literal_key K = true ->
  existsb (assigns K) (lines D) = false ->
  update_env_variable D K V = D ++ LF :: assignment K V /\
  (no_lf V ->
   lines (update_env_variable D K V) = lines D ++ [assignment K V]).
Proof.
  intros LK Habs. pose proof (literal_key_no_lf K LK) as HK. split.
  - rewrite update_env_variable_text by assumption. now rewrite Habs.
  - intros HV. rewrite update_env_variable_lines by assumption.
    unfold upsert_lines. now rewrite Habs.
Qed.

Lemma C1_witness :
  literal_key (py "B") = true /\
  existsb (assigns (py "B")) (lines (py ("A=1" ++ nl)%string)) = false /\
  update_env_variable (py ("A=1" ++ nl)%string) (py "B") (py "2")
  = py ("A=1" ++ nl)%string ++ LF :: assignment (py "B") (py "2").
Proof.
  split; [reflexivity|]. split; [reflexivity|].
  refine (proj1 (C1_upsert_absent_appends
                   (py ("A=1" ++ nl)%string) (py "B") (py "2") _ _));
    reflexivity.
Defined.

(** C5, as the specification states it, fails on the code: in
    ["K=1\nK=2"] the line at position 0 reads [K=1]; after the upsert of
    [K=3] position 1 reads [K=3] too, so the result is not the document
    with position 0 alone changed. *)
Lemma C5_counterexample :
  nth_error (lines (py ("K=1" ++ nl ++ "K=2")%string)) 0
  = Some (assignment (py "K") (py "1")) /\
  lines (update_env_variable (py ("K=1" ++ nl ++ "K=2")%string) (py "K") (py "3"))
  = [py "K=3"; py "K=3"] /\
  lines (update_env_variable (py ("K=1" ++ nl ++ "K=2")%string) (py "K") (py "3"))
  <> [py "K=3"; py "K=2"].
Proof. repeat split; try reflexivity. vm_compute. discriminate. Qed.

(** C5, amended: for every document D whose line at position i reads
    [K=old], K made of capital letters and underscores, upserting K=V (V
    free of backslashes and line feeds) gives a document with
    the same number of lines in which position i reads [K=V], every other
    line that begins with [K=] reads [K=V] as well, and every line that
    does not begin with [K=] is unchanged at its position; when no other
    line begins with [K=] the result is D with position i alone
    changed.  Here [pre] holds the lines before position i and [post] the
    lines after it. *)
Theorem C5_replace_in_place (D K V old : str) (pre post : list str) :
  literal_key K = true -> literal_value V = true -> no_lf V ->
  lines D = pre ++ assignment K old :: post ->
  lines (update_env_variable D K V)
  = map (set_line K V) pre ++ assignment K V :: map (set_line K V) post
  /\ ((forall l, In l (pre ++ post) -> assigns K l = false) ->
      lines (update_env_variable D K V) = pre ++ assignment K V :: post).
Proof.
  intros LK _ HV HD.
  pose proof (literal_key_no_lf K LK) as HK.
  assert (E : lines (update_env_variable D K V)
              = map (set_line K V) pre ++ assignment K V :: map (set_line K V) post).
  { rewrite update_env_variable_lines by assumption.
    unfold upsert_lines. rewrite HD.
    rewrite existsb_app. simpl. rewrite assigns_assignment_self.
    rewrite orb_true_r. rewrite map_app. simpl.
    unfold set_line at 2. now rewrite assigns_assignment_self. }
  split; [exact E|].
  intros Hother. rewrite E.
  assert (M : forall xs, (forall l, In l xs -> assigns K l = false) ->
                         map (set_line K V) xs = xs).
  { induction xs as [|x xs IH]; intros H; [reflexivity|]. simpl.
    unfold set_line at 1. rewrite (H x (or_introl eq_refl)).
    rewrite IH; [reflexivity|]. intros l Hl. apply H. now right. }
  rewrite (M pre) by (intros l Hl; apply Hother; apply in_or_app; tauto).
  rewrite (M post) by (intros l Hl; apply Hother; apply in_or_app; tauto).
  reflexivity.
Qed.

Lemma C5_witness :
  literal_key (py "K") = true /\ literal_value (py "9") = true /\
  no_lf (py "9") /\
  lines (py ("A=1" ++ nl ++ "K=old" ++ nl ++ "# K=2")%string)
  = [py "A=1"] ++ assignment (py "K") (py "old") :: [py "# K=2"] /\
  lines (update_env_variable (py ("A=1" ++ nl ++ "K=old" ++ nl ++ "# K=2")%string)
           (py "K") (py "9"))
  = map (set_line (py "K") (py "9")) [py "A=1"]
    ++ assignment (py "K") (py "9") :: map (set_line (py "K") (py "9")) [py "# K=2"].
Proof.
  split; [reflexivity|]. split; [reflexivity|].
  split; [no_lf_literal|]. split; [reflexivity|].
  refine (proj1 (C5_replace_in_place
                   (py ("A=1" ++ nl ++ "K=old" ++ nl ++ "# K=2")%string)
                   (py "K") (py "9") (py "old") [py "A=1"] [py "# K=2"] _ _ _ _));
    [reflexivity | reflexivity | no_lf_literal | reflexivity].
Defined.

(** C8, as the specification states it for every key, fails on the code:
    the key is written into the pattern as it stands, so the key ["A\nB"],
    which holds a line feed, makes [^A\nB=.*$] match the two lines of
    ["A\nB=1"] together; the line [B=1] at position 1 does not begin with
    the key and [=], and the upsert of the value [2] rewrites it to
    [B=2]. *)
Lemma C8_counterexample :
  nth_error (lines (py ("A" ++ nl ++ "B=1")%string)) 1 = Some (py "B=1") /\
  (forall v, py "B=1" <> assignment (py ("A" ++ nl ++ "B")%string) v) /\
  update_env_variable (py ("A" ++ nl ++ "B=1")%string)
    (py ("A" ++ nl ++ "B")%string) (py "2")
  = py ("A" ++ nl ++ "B=2")%string /\
  nth_error
    (lines (update_env_variable (py ("A" ++ nl ++ "B=1")%string)
              (py ("A" ++ nl ++ "B")%string) (py "2"))) 1
  <> Some (py "B=1").
Proof.
  split; [reflexivity|]. split.
  - intros v E. vm_compute in E. discriminate E.
  - split; [reflexivity|]. vm_compute. discriminate.
Qed.

(** C8, amended: matching is anchored at the start of each line.  For
    every content D, every key K made of capital letters and underscores
    and every value V free of backslashes and line feeds, a line of D
    that does not read [K=...] from its first code point on stays at its
    position, unchanged, after the upsert of K=V; so a line that holds K or
    [K=] further in, behind a comment mark or other characters, or a line
    of a longer key of which K is a prefix, is never replaced. *)
Theorem C8_only_lines_beginning_with_key (D K V l : str) (j : nat) :
  literal_key K = true -> literal_value V = true -> no_lf V ->
  nth_error (lines D) j = Some l ->
  (forall v, l <> assignment K v) ->
  nth_error (lines (update_env_variable D K V)) j = Some l.
Proof.
  intros LK _ HV Hj Hl. pose proof (literal_key_no_lf K LK) as HK.
  apply assigns_false_iff in Hl.
  rewrite update_env_variable_lines by assumption. unfold upsert_lines.
  destruct (existsb (assigns K) (lines D)).
  - rewrite nth_error_map, Hj. simpl. unfold set_line. now rewrite Hl.
  - rewrite nth_error_app1; [assumption|].
    apply nth_error_Some. congruence.
Qed.

Lemma C8_witness :
  literal_key (py "KEY") = true /\ literal_value (py "9") = true /\
  no_lf (py "9") /\
  nth_error
    (lines (py ("# KEY=1" ++ nl ++ "MY_KEY=2" ++ nl ++ "KEY2=3" ++ nl ++ "KEY=4")%string))
    2 = Some (py "KEY2=3") /\
  (forall v, py "KEY2=3" <> assignment (py "KEY") v) /\
  nth_error
    (lines (update_env_variable
              (py ("# KEY=1" ++ nl ++ "MY_KEY=2" ++ nl ++ "KEY2=3" ++ nl ++ "KEY=4")%string)
              (py "KEY") (py "9")))
    2 = Some (py "KEY2=3").
Proof.
  assert (H : forall v, py "KEY2=3" <> assignment (py "KEY") v).
  { intros v E. vm_compute in E. discriminate E. }
  split; [reflexivity|]. split; [reflexivity|]. split; [no_lf_literal|].
  split; [reflexivity|]. split; [exact H|].
  apply (C8_only_lines_beginning_with_key
           (py ("# KEY=1" ++ nl ++ "MY_KEY=2" ++ nl ++ "KEY2=3" ++ nl ++ "KEY=4")%string)
           (py "KEY") (py "9") (py "KEY2=3") 2);
    [reflexivity | reflexivity | no_lf_literal | reflexivity | exact H].
Defined.

Example anchored_upsert :
  update_env_variable
    (py ("# KEY=1" ++ nl ++ "MY_KEY=2" ++ nl ++ "KEY2=3" ++ nl ++ " KEY=4" ++ nl ++ "KEY=5")%string)
    (py "KEY") (py "9")
  = py ("# KEY=1" ++ nl ++ "MY_KEY=2" ++ nl ++ "KEY2=3" ++ nl ++ " KEY=4" ++ nl ++ "KEY=9")%string.
Proof. reflexivity. Qed.

(** C9, as stated for every value, fails on the code: the value is
    written into the text as it stands, so with the value ["a\nb"], which
    holds a line feed, the upsert on ["K=1\nK=2"] gives
    ["K=a\nb\nK=a\nb"], four lines for two; position 1, which read [K=2],
    reads [b], and no line reads the key, [=] and the value. *)
Lemma C9_counterexample :
  nth_error (lines (py ("K=1" ++ nl ++ "K=2")%string)) 1
  = Some (assignment (py "K") (py "2")) /\
  lines (update_env_variable (py ("K=1" ++ nl ++ "K=2")%string)
           (py "K") (py ("a" ++ nl ++ "b")%string))
  = [py "K=a"; py "b"; py "K=a"; py "b"] /\
  nth_error
    (lines (update_env_variable (py ("K=1" ++ nl ++ "K=2")%string)
              (py "K") (py ("a" ++ nl ++ "b")%string))) 1
  <> Some (assignment (py "K") (py ("a" ++ nl ++ "b")%string)) /\
  length (lines (update_env_variable (py ("K=1" ++ nl ++ "K=2")%string)
                   (py "K") (py ("a" ++ nl ++ "b")%string)))
  <> length (lines (py ("K=1" ++ nl ++ "K=2")%string)).
Proof.
  split; [reflexivity|]. split; [reflexivity|].
  split; vm_compute; discriminate.
Qed.

(** C9, amended: when several lines of the content assign the same key K,
    made of capital letters and underscores, the upsert of K=V (V free of
    backslashes and line feeds) replaces every one of them: the
    line at each position j that read [K=old] reads [K=V] afterwards, no
    line is dropped, and as many lines assign K as before. *)
Theorem C9_every_duplicate_replaced (D K V old : str) (j : nat) :
  literal_key K = true -> literal_value V = true -> no_lf V ->
  nth_error (lines D) j = Some (assignment K old) ->
  nth_error (lines (update_env_variable D K V)) j = Some (assignment K V)
  /\ length (lines (update_env_variable D K V)) = length (lines D)
  /\ count_assigns K (lines (update_env_variable D K V))
     = count_assigns K (lines D).
Proof.
  intros LK _ HV Hj.
  assert (Hin : In (assignment K old) (lines D)) by (eapply nth_error_In; eassumption).
  pose proof (literal_key_no_lf K LK) as HK.
  assert (Hex : existsb (assigns K) (lines D) = true).
  { apply existsb_exists. exists (assignment K old).
    split; [assumption | apply assigns_assignment_self]. }
  rewrite update_env_variable_lines by assumption.
  unfold upsert_lines. rewrite Hex. repeat split.
  - rewrite nth_error_map, Hj. simpl. unfold set_line.
    now rewrite assigns_assignment_self.
  - apply length_map.
  - apply count_assigns_set_line.
Qed.

Lemma C9_witness :
  literal_key (py "K") = true /\ literal_value (py "3") = true /\
  no_lf (py "3") /\
  nth_error (lines (py ("K=1" ++ nl ++ "X=0" ++ nl ++ "K=2")%string)) 2
  = Some (assignment (py "K") (py "2")) /\
  nth_error
    (lines (update_env_variable (py ("K=1" ++ nl ++ "X=0" ++ nl ++ "K=2")%string)
              (py "K") (py "3"))) 2
  = Some (assignment (py "K") (py "3")).
Proof.
  split; [reflexivity|]. split; [reflexivity|].
  split; [no_lf_literal|]. split; [reflexivity|].
  refine (proj1 (C9_every_duplicate_replaced
                   (py ("K=1" ++ nl ++ "X=0" ++ nl ++ "K=2")%string)
                   (py "K") (py "3") (py "2") 2 _ _ _ _));
    [reflexivity | reflexivity | no_lf_literal | reflexivity].
Defined.

Example duplicates_upsert :
  update_env_variable (py ("K=1" ++ nl ++ "X=0" ++ nl ++ "K=2")%string) (py "K") (py "3")
  = py ("K=3" ++ nl ++ "X=0" ++ nl ++ "K=3")%string.
Proof. reflexivity. Qed.

(** C4, as the specification states it, fails on the code: the input
    ["K=1\nK=2"] has two lines that assign [K], and after the upsert of
    [K=3] two lines of the result assign [K]. *)
Lemma C4_counterexample :
  lines (update_env_variable (py ("K=1" ++ nl ++ "K=2")%string) (py "K") (py "3"))
  = [py "K=3"; py "K=3"] /\
  ~ (count_assigns (py "K")
       (lines (update_env_variable (py ("K=1" ++ nl ++ "K=2")%string) (py "K") (py "3")))
     <= 1).
Proof.
  split; [reflexivity|]. vm_compute. intros H.
  apply (Nat.nle_succ_diag_l 1). exact H.
Qed.

(** C4, amended: after an upsert of a key K made of capital letters and
    underscores, with a value V free of backslashes and line feeds,
    the lines that assign K are as many as in the input when the input had
    any, and one when it had none; so at most one line assigns K afterwards
    exactly when at most one did before.  And for entries with distinct
    keys of capital letters and underscores and values free of backslashes
    and line feeds, the
    loop of [apply_config] keeps every line of the input at its position
    (set to its new value where its key is among the entries) and appends
    the entries whose keys are absent from the input at the end, in the
    iteration order of the entries. *)
Theorem C4_count_and_placement (D K V : str) (cfg : list (str * str)) :
  literal_key K = true -> literal_value V = true -> no_lf V ->
  wf_config cfg -> literal_entries cfg = true ->
  count_assigns K (lines (update_env_variable D K V))
  = Nat.max 1 (count_assigns K (lines D))
  /\ (count_assigns K (lines D) <= 1 ->
      count_assigns K (lines (update_env_variable D K V)) = 1)
  /\ lines (apply_entries D cfg)
     = replace_present cfg (lines D)
       ++ map (fun kv => assignment (fst kv) (snd kv))
            (absent_entries (lines D) cfg)
  /\ length (replace_present cfg (lines D)) = length (lines D).
Proof.
  intros LK _ HV Hwf _. pose proof (literal_key_no_lf K LK) as HK.
  assert (C : count_assigns K (lines (update_env_variable D K V))
              = Nat.max 1 (count_assigns K (lines D))).
  { rewrite update_env_variable_lines by assumption. apply count_assigns_upsert. }
  split; [exact C|]. split; [intros H; rewrite C; lia|]. split.
  - rewrite apply_entries_lines by apply Hwf.
    now apply fold_upsert_placement.
  - unfold replace_present. generalize (lines D).
    clear. induction cfg as [|kv cfg IH]; intros ls; [reflexivity|].
    simpl. rewrite IH. apply length_map.
Qed.

Lemma C4_witness :
  literal_key (py "B") = true /\ literal_value (py "2") = true /\
  no_lf (py "2") /\
  wf_config [(py "A", py "7"); (py "B", py "8"); (py "C", py "9")] /\
  literal_entries [(py "A", py "7"); (py "B", py "8"); (py "C", py "9")] = true /\
  lines (apply_entries (py ("x" ++ nl ++ "B=0")%string)
           [(py "A", py "7"); (py "B", py "8"); (py "C", py "9")])
  = [py "x"; py "B=8"; py "A=7"; py "C=9"].
Proof.
  assert (W : wf_config [(py "A", py "7"); (py "B", py "8"); (py "C", py "9")]).
  { apply wf_configb_wf. vm_compute. reflexivity. }
  split; [reflexivity|]. split; [reflexivity|]. split; [no_lf_literal|].
  split; [exact W|]. split; [reflexivity|].
  refine (eq_trans
            (proj1 (proj2 (proj2
               (C4_count_and_placement (py ("x" ++ nl ++ "B=0")%string)
                  (py "B") (py "2")
                  [(py "A", py "7"); (py "B", py "8"); (py "C", py "9")]
                  _ _ _ W _))))
            _);
    [reflexivity | reflexivity | no_lf_literal | reflexivity | reflexivity].
Defined.

(** * The catalog: the claim on idempotence *)

(** C2: for every preset P of the catalog and every initial content D,
    folding [update_env_variable] over the entries of P, as [apply_config]
    does, twice in succession gives exactly the text it gives once. *)
Theorem C2_catalog_apply_twice (id : str) (cd : config_data) (D : str) :
  In (id, cd) get_configurations ->
  apply_entries (apply_entries D (config cd)) (config cd)
  = apply_entries D (config cd).
Proof.
  intros Hin. apply apply_entries_idempotent.
  now destruct (catalog_wf id cd Hin).
Qed.

Lemma C2_witness :
  In (py "openai",
      ConfigData (py "OpenAI (Direct)")
        [ (py "FAST_LLM", py "openai:gpt-4o-mini");
          (py "SMART_LLM", py "openai:gpt-4o");
          (py "STRATEGIC_LLM", py "openai:o1-mini") ]
        [ py "OPENAI_API_KEY" ]
        (py "Direct OpenAI API access with their latest models."))
     get_configurations /\
  apply_entries
    (apply_entries (py ("A=1" ++ nl ++ "SMART_LLM=old")%string)
       [ (py "FAST_LLM", py "openai:gpt-4o-mini");
         (py "SMART_LLM", py "openai:gpt-4o");
         (py "STRATEGIC_LLM", py "openai:o1-mini") ])
    [ (py "FAST_LLM", py "openai:gpt-4o-mini");
      (py "SMART_LLM", py "openai:gpt-4o");
      (py "STRATEGIC_LLM", py "openai:o1-mini") ]
  = apply_entries (py ("A=1" ++ nl ++ "SMART_LLM=old")%string)
      [ (py "FAST_LLM", py "openai:gpt-4o-mini");
        (py "SMART_LLM", py "openai:gpt-4o");
        (py "STRATEGIC_LLM", py "openai:o1-mini") ].
Proof.
  assert (H : In (py "openai",
      ConfigData (py "OpenAI (Direct)")
        [ (py "FAST_LLM", py "openai:gpt-4o-mini");
          (py "SMART_LLM", py "openai:gpt-4o");
          (py "STRATEGIC_LLM", py "openai:o1-mini") ]
        [ py "OPENAI_API_KEY" ]
        (py "Direct OpenAI API access with their latest models."))
     get_configurations).
  { simpl. right. right. right. left. reflexivity. }
  split; [exact H|].
  exact (C2_catalog_apply_twice _ _ (py ("A=1" ++ nl ++ "SMART_LLM=old")%string) H).
Defined.

Example apply_openai :
  apply_entries (py ("A=1" ++ nl ++ "SMART_LLM=old")%string)
    [ (py "FAST_LLM", py "openai:gpt-4o-mini");
      (py "SMART_LLM", py "openai:gpt-4o");
      (py "STRATEGIC_LLM", py "openai:o1-mini") ]
  = py ("A=1" ++ nl ++ "SMART_LLM=openai:gpt-4o" ++ nl
        ++ "FAST_LLM=openai:gpt-4o-mini" ++ nl ++ "STRATEGIC_LLM=openai:o1-mini")%string.
Proof. reflexivity. Qed.

(** * The credential check: the claims *)

Lemma line_value_assignment (K w : str) :
  line_value K (assignment K w) = match w with [] => None | _ :: _ => Some w end.
Proof.
  unfold line_value. rewrite assigns_assignment_self.
  unfold assignment. change (K ++ EQ :: w) with (K ++ [EQ] ++ w).
  rewrite app_assoc, skipn_app_exact. now destruct w.
Qed.


Lemma check_required_keys_run (cd : config_data) (st : fs) :
  check_required_keys cd st
  = (inr match dot_env st with
         | Some content => missing_keys_of content (required_keys cd)
         | None => []
         end, st).
Proof.
  destruct st as [[content|] backup events]; reflexivity.
Qed.

(** C3, as the specification states it, fails on the code: in the
    content ["OPENROUTER_API_KEY= \nOPENROUTER_API_KEY=abc"] the second
    line gives the key a value that is neither empty nor white space, so
    the specification reports no key; the code reports the key missing,
    because the first line with a non-empty value decides and its value is
    a single space. *)
Lemma C3_counterexample :
  check_required_keys
    (ConfigData [] [] [py "OPENROUTER_API_KEY"] [])
    (Fs (Some (py ("OPENROUTER_API_KEY= " ++ nl ++ "OPENROUTER_API_KEY=abc")%string))
        None [])
  = (inr [py "OPENROUTER_API_KEY"],
     Fs (Some (py ("OPENROUTER_API_KEY= " ++ nl ++ "OPENROUTER_API_KEY=abc")%string))
        None []) /\
  missing_per_spec
    (py ("OPENROUTER_API_KEY= " ++ nl ++ "OPENROUTER_API_KEY=abc")%string)
    [py "OPENROUTER_API_KEY"] = [] /\
  missing_keys_of
    (py ("OPENROUTER_API_KEY= " ++ nl ++ "OPENROUTER_API_KEY=abc")%string)
    [py "OPENROUTER_API_KEY"]
  <> missing_per_spec
       (py ("OPENROUTER_API_KEY= " ++ nl ++ "OPENROUTER_API_KEY=abc")%string)
       [py "OPENROUTER_API_KEY"].
Proof. repeat split; try reflexivity. vm_compute. discriminate. Qed.

(** C3, amended: for every file content and every ordered list of
    required keys made of capital letters and underscores, the credential
    check returns, in
    the order of the input list, exactly the keys for which the first line
    of the form [KEY=VALUE] with a non-empty VALUE either does not exist or
    has a VALUE of white space only; in particular a document that is the
    line [OPENROUTER_API_KEY=] reports that key as missing, and one that
    is [OPENROUTER_API_KEY=abc123] reports it as present. *)
Theorem C3_check_by_first_value (cd : config_data) (st : fs) (content : str) :
  forallb literal_key (required_keys cd) = true ->
  dot_env st = Some content ->
  check_required_keys cd st
  = (inr (filter (first_value_missing content) (required_keys cd)), st)
  /\ missing_keys_of (py "OPENROUTER_API_KEY=") [py "OPENROUTER_API_KEY"]
     = [py "OPENROUTER_API_KEY"]
  /\ missing_keys_of (py "OPENROUTER_API_KEY=abc123") [py "OPENROUTER_API_KEY"]
     = [].
Proof.
  intros Hkeys Henv. split; [|split; reflexivity].
  rewrite check_required_keys_run, Henv. do 2 f_equal.
  rewrite missing_keys_of_filter. apply filter_ext_in.
  intros k Hk. apply key_missing_first_value.
  rewrite forallb_forall in Hkeys. apply literal_key_no_lf. now apply Hkeys.
Qed.

Lemma C3_witness :
  forallb literal_key [py "OPENROUTER_API_KEY"; py "OPENAI_API_KEY"] = true /\
  check_required_keys
    (ConfigData [] [] [py "OPENROUTER_API_KEY"; py "OPENAI_API_KEY"] [])
    (Fs (Some (py ("OPENAI_API_KEY=" ++ nl ++ "OPENROUTER_API_KEY=abc123")%string))
        None [])
  = (inr (filter
            (first_value_missing
               (py ("OPENAI_API_KEY=" ++ nl ++ "OPENROUTER_API_KEY=abc123")%string))
            [py "OPENROUTER_API_KEY"; py "OPENAI_API_KEY"]),
     Fs (Some (py ("OPENAI_API_KEY=" ++ nl ++ "OPENROUTER_API_KEY=abc123")%string))
        None []).
Proof.
  assert (H : forallb literal_key [py "OPENROUTER_API_KEY"; py "OPENAI_API_KEY"] = true)
    by reflexivity.
  split; [exact H|].
  exact (proj1 (C3_check_by_first_value
                  (ConfigData [] [] [py "OPENROUTER_API_KEY"; py "OPENAI_API_KEY"] [])
                  (Fs (Some (py ("OPENAI_API_KEY=" ++ nl ++ "OPENROUTER_API_KEY=abc123")%string))
                      None [])
                  (py ("OPENAI_API_KEY=" ++ nl ++ "OPENROUTER_API_KEY=abc123")%string)
                  H eq_refl)).
Defined.




Example blank_first_hides_later_value :
  missing_keys_of (py ("K= " ++ nl ++ "K=abc")%string) [py "K"] = [py "K"].
Proof. reflexivity. Qed.

Example empty_first_is_skipped :
  missing_keys_of (py ("K=" ++ nl ++ "K=abc")%string) [py "K"] = [].
Proof. reflexivity. Qed.

(** * The working directory: the claims *)

Section Files.

Lemma backup_env_run (st : fs) :
  backup_env st
  = (inr tt,
     match dot_env st with
     | Some c => Fs (Some c) (Some c) (trace st ++ [Wrote DotEnvBackup c])
     | None => st
     end).
Proof. destruct st as [[content|] backup events]; reflexivity. Qed.

Lemma apply_config_run (config_name : str) (cfg : list (str * str)) (st : fs) :
  apply_config config_name cfg st
  = (inr tt,
     let content := match dot_env st with Some c => c | None => [] end in
     Fs (Some (apply_entries content cfg)) (dot_env_backup st)
        (trace st ++ [Wrote DotEnv (apply_entries content cfg)])).
Proof. destruct st as [[content|] backup events]; reflexivity. Qed.

Lemma backup_then_apply_run (cd : config_data) (st : fs) :
  exists st', backup_then_apply cd st = (inr tt, st')
              /\ backed_up_then_applied cd st st'.
Proof.
  unfold backup_then_apply, bind. rewrite backup_env_run, apply_config_run.
  eexists. split; [reflexivity|].
  unfold backed_up_then_applied.
  destruct st as [[content|] backup events]; simpl; [|reflexivity].
  now rewrite <- app_assoc.
Qed.

Lemma list_configurations_run (configurations : list (str * config_data)) (st : fs) :
  list_configurations configurations st = (inr tt, st).
Proof.
  induction configurations as [|[id cd] more IH]; [reflexivity|].
  simpl. unfold bind. now rewrite check_required_keys_run.
Qed.

(** A run of the selection loop leaves the working directory as it was,
    or ends with the backup and the patch of one preset. *)
Lemma main_loop_run (configurations : list (str * config_data)) (n : nat) :
  forall (stdin : list input) (st : fs),
    length stdin <= n ->
    snd (main_loop configurations stdin st) = st
    \/ (fst (main_loop configurations stdin st) = inr tt
        /\ exists id cd, In (id, cd) configurations
             /\ backed_up_then_applied cd st (snd (main_loop configurations stdin st))).
Proof.
  induction n as [|n IH]; intros stdin st Hlen.
  - destruct stdin; [now left | simpl in Hlen; lia].
  - destruct stdin as [|[l|] rest]; [now left | | now left].
    simpl in Hlen. simpl main_loop.
    destruct (as_choice l) as [|choice_num|]; [now left | | apply IH; lia].
    destruct ((1 <=? choice_num) && (choice_num <=? Z.of_nat (length configurations)))%Z;
      [|apply IH; lia].
    destruct (nth_error configurations (Z.to_nat (choice_num - 1)))
      as [[id cd]|] eqn:Hnth; [|now left].
    apply nth_error_In in Hnth.
    unfold bind. rewrite check_required_keys_run.
    destruct (backup_then_apply_run cd st) as [st' [Hrun Hst']].
    assert (Happlied :
      snd (backup_then_apply cd st) = st
      \/ (fst (backup_then_apply cd st) = inr tt
          /\ exists id0 cd0, In (id0, cd0) configurations
               /\ backed_up_then_applied cd0 st (snd (backup_then_apply cd st)))).
    { right. rewrite Hrun. split; [reflexivity|]. now exists id, cd. }
    destruct (match dot_env st with
              | Some content => missing_keys_of content (required_keys cd)
              | None => []
              end); [exact Happlied|].
    destruct rest as [|[confirm|] rest']; [now left | | now left].
    destruct (is_yes confirm); [exact Happlied|].
    apply IH. simpl in Hlen. lia.
Qed.

End Files.

(** C6: on every invocation that goes on to change the configuration
    file, the backup step runs strictly before the change.  [backup_env]
    never raises; it copies the exact content of [.env], when that file
    exists, over [.env.backup], and does nothing when it does not.  And
    every run of [main], whatever is typed, either leaves the working
    directory as it was or ends normally after exactly these writes: when
    [.env] existed with content c, first c to [.env.backup], then the
    patched text to [.env]; when it did not, the one write that creates
    [.env], the backup left as it was. *)
Theorem C6_backup_before_mutation (stdin : list input) (st : fs) :
  backup_env st
  = (inr tt,
     match dot_env st with
     | Some c => Fs (Some c) (Some c) (trace st ++ [Wrote DotEnvBackup c])
     | None => st
     end)
  /\ (snd (main stdin st) = st
      \/ (fst (main stdin st) = inr tt
          /\ exists id cd, In (id, cd) get_configurations
               /\ backed_up_then_applied cd st (snd (main stdin st)))).
Proof.
  split; [apply backup_env_run|].
  unfold main, bind. rewrite list_configurations_run.
  apply (main_loop_run get_configurations (length stdin)). lia.
Qed.

Example backup_then_upsert :
  backup_then_apply (ConfigData [] [(py "B", py "2")] [] [])
    (Fs (Some (py ("A=1" ++ nl)%string)) (Some (py "old backup")) [])
  = (inr tt,
     Fs (Some (py ("A=1" ++ nl ++ nl ++ "B=2")%string))
        (Some (py ("A=1" ++ nl)%string))
        [Wrote DotEnvBackup (py ("A=1" ++ nl)%string);
         Wrote DotEnv (py ("A=1" ++ nl ++ nl ++ "B=2")%string)]).
Proof. reflexivity. Qed.

Example main_selects_ollama :
  snd (main [Typed (Line ChoiceInvalid false); Typed (Line (ChoiceInt 99) false);
             Typed (Line (ChoiceInt 5) false)]
         (Fs (Some (py "FAST_LLM=x")) None []))
  = Fs (Some (py ("FAST_LLM=ollama:llama3" ++ nl ++ "SMART_LLM=ollama:llama3" ++ nl
                  ++ "STRATEGIC_LLM=ollama:llama3" ++ nl
                  ++ "OLLAMA_BASE_URL=http://localhost:11434")%string))
       (Some (py "FAST_LLM=x"))
       [Wrote DotEnvBackup (py "FAST_LLM=x");
        Wrote DotEnv
          (py ("FAST_LLM=ollama:llama3" ++ nl ++ "SMART_LLM=ollama:llama3" ++ nl
               ++ "STRATEGIC_LLM=ollama:llama3" ++ nl
               ++ "OLLAMA_BASE_URL=http://localhost:11434")%string)].
Proof. vm_compute. reflexivity. Qed.



(** * Further properties of the upsert *)

Section UpsertMore.

Lemma assigns_set_line_same (K V l : str) :
  assigns K (set_line K V l) = assigns K l.
Proof.
  unfold set_line. destruct (assigns K l) eqn:E; [|exact E].
  apply assigns_assignment_self.
Qed.

Lemma existsb_assigns_set_line_same (K V : str) (ls : list str) :
  existsb (assigns K) (map (set_line K V) ls) = existsb (assigns K) ls.
Proof.
  induction ls as [|l ls IH]; [reflexivity|].
  simpl. now rewrite assigns_set_line_same, IH.
Qed.

Lemma set_line_twice (K V1 V2 l : str) :
  set_line K V2 (set_line K V1 l) = set_line K V2 l.
Proof.
  unfold set_line at 2 3. destruct (assigns K l) eqn:E.
  - unfold set_line. now rewrite assigns_assignment_self.
  - unfold set_line. now rewrite E.
Qed.

Lemma upsert_lines_twice (K V1 V2 : str) (ls : list str) :
  upsert_lines K V2 (upsert_lines K V1 ls) = upsert_lines K V2 ls.
Proof.
  unfold upsert_lines at 2 3. destruct (existsb (assigns K) ls) eqn:E.
  - unfold upsert_lines. rewrite existsb_assigns_set_line_same, E.
    rewrite map_map. apply map_ext. intros l. apply set_line_twice.
  - unfold upsert_lines. rewrite existsb_app. simpl.
    rewrite assigns_assignment_self, orb_true_r.
    rewrite map_app, map_set_line_absent by assumption. simpl.
    unfold set_line. now rewrite assigns_assignment_self.
Qed.

Lemma set_line_commute (K1 V1 K2 V2 l : str) :
  no_eq K1 -> no_eq K2 -> K1 <> K2 ->
  set_line K1 V1 (set_line K2 V2 l) = set_line K2 V2 (set_line K1 V1 l).
Proof.
  intros H1 H2 Hne.
  assert (Hne' : K2 <> K1) by congruence.
  unfold set_line at 2 4.
  destruct (assigns K2 l) eqn:E2, (assigns K1 l) eqn:E1.
  - exfalso. apply Hne. now apply (assigns_unique K1 K2 l).
  - unfold set_line. rewrite E2. now rewrite assigns_other.
  - unfold set_line. rewrite E1. now rewrite assigns_other.
  - unfold set_line. now rewrite E1, E2.
Qed.

Lemma set_line_other_assignment (K V K' V' : str) :
  no_eq K -> no_eq K' -> K <> K' ->
  set_line K V (assignment K' V') = assignment K' V'.
Proof. intros. unfold set_line. now rewrite assigns_other. Qed.

Lemma upsert_lines_commute (K1 V1 K2 V2 : str) (ls : list str) :
  no_eq K1 -> no_eq K2 -> K1 <> K2 ->
  existsb (assigns K1) ls || existsb (assigns K2) ls = true ->
  upsert_lines K1 V1 (upsert_lines K2 V2 ls)
  = upsert_lines K2 V2 (upsert_lines K1 V1 ls).
Proof.
  intros H1 H2 Hne Hex.
  assert (Hne' : K2 <> K1) by congruence.
  unfold upsert_lines at 1 3.
  rewrite !existsb_assigns_upsert_other by assumption.
  unfold upsert_lines.
  destruct (existsb (assigns K1) ls) eqn:E1, (existsb (assigns K2) ls) eqn:E2;
    try discriminate.
  - rewrite !map_map. apply map_ext. intros l. now apply set_line_commute.
  - rewrite map_app. simpl. now rewrite set_line_other_assignment.
  - rewrite map_app. simpl. now rewrite set_line_other_assignment.
Qed.

Lemma first_value_app (K : str) (xs ys : list str) :
  first_value K (xs ++ ys)
  = match first_value K xs with
    | Some v => Some v
    | None => first_value K ys
    end.
Proof.
  induction xs as [|x xs IH]; [reflexivity|]. simpl.
  now destruct (line_value K x).
Qed.

Lemma line_value_not_assigned (K l : str) :
  assigns K l = false -> line_value K l = None.
Proof. intros H. unfold line_value. now rewrite H. Qed.

Lemma line_value_set_line_other (K K' V' l : str) :
  no_eq K -> no_eq K' -> K <> K' ->
  line_value K (set_line K' V' l) = line_value K l.
Proof.
  intros HK HK' Hne. unfold set_line.
  destruct (assigns K' l) eqn:E'; [|reflexivity].
  rewrite !line_value_not_assigned; try reflexivity.
  - destruct (assigns K l) eqn:E; [|reflexivity].
    exfalso. apply Hne. now apply (assigns_unique K K' l).
  - now apply assigns_other.
Qed.

Lemma first_value_upsert_other (K K' V' : str) (ls : list str) :
  no_eq K -> no_eq K' -> K <> K' ->
  first_value K (upsert_lines K' V' ls) = first_value K ls.
Proof.
  intros HK HK' Hne. unfold upsert_lines.
  destruct (existsb (assigns K') ls).
  - induction ls as [|l ls IH]; [reflexivity|]. simpl.
    now rewrite line_value_set_line_other, IH.
  - rewrite first_value_app. simpl.
    rewrite (line_value_not_assigned K (assignment K' V'))
      by now apply assigns_other.
    now destruct (first_value K ls).
Qed.

Lemma first_value_all_read (K V : str) (ls : list str) :
  (forall l, In l ls -> assigns K l = true -> l = assignment K V) ->
  first_value K ls
  = if existsb (assigns K) ls
    then match V with [] => None | _ :: _ => Some V end
    else None.
Proof.
  induction ls as [|l ls IH]; intros H; [reflexivity|]. simpl.
  specialize (IH (fun l0 Hin => H l0 (or_intror Hin))).
  destruct (assigns K l) eqn:E; simpl.
  - rewrite (H l (or_introl eq_refl) E), line_value_assignment.
    destruct V as [|c V]; [|reflexivity].
    rewrite IH. now destruct (existsb (assigns K) ls).
  - now rewrite line_value_not_assigned.
Qed.

Lemma first_value_settled (K V : str) (ls : list str) :
  settled ls (K, V) ->
  first_value K ls = match V with [] => None | _ :: _ => Some V end.
Proof.
  intros [Hex Hall]. simpl in *.
  rewrite (first_value_all_read K V ls Hall). now rewrite Hex.
Qed.

Lemma missing_of_settled (content K V : str) :
  no_lf K -> settled (lines content) (K, V) ->
  key_missing content K = blank V.
Proof.
  intros HK Hs. rewrite key_missing_first_value by assumption.
  unfold first_value_missing. rewrite (first_value_settled K V _ Hs).
  now destruct V.
Qed.

End UpsertMore.

(** X1: the editor and the credential check agree.  After the upsert of
    K=V (K made of capital letters and underscores, V free of backslashes
    and line feeds) the credential check reports K missing
    exactly when V is empty or white space only, whatever the content was
    before. *)
Theorem X1_upsert_then_check (D K V : str) :
  literal_key K = true -> literal_value V = true -> no_lf V ->
  key_missing (update_env_variable D K V) K = blank V.
Proof.
  intros LK _ HV. pose proof (literal_key_no_lf K LK) as HK.
  apply missing_of_settled; [assumption|].
  rewrite update_env_variable_lines by assumption. apply settled_upsert.
Qed.

Lemma X1_witness :
  literal_key (py "K") = true /\ literal_value (py "abc") = true /\
  no_lf (py "abc") /\
  key_missing
    (update_env_variable (py ("K= " ++ nl ++ "K=")%string) (py "K") (py "abc")) (py "K")
  = blank (py "abc").
Proof.
  split; [reflexivity|]. split; [reflexivity|]. split; [no_lf_literal|].
  apply (X1_upsert_then_check (py ("K= " ++ nl ++ "K=")%string) (py "K") (py "abc"));
    [reflexivity | reflexivity | no_lf_literal].
Defined.

(** X2: the last upsert of a key wins.  Upserting K=V1 and then K=V2 gives
    the very text that upserting K=V2 alone gives (K made of capital
    letters and underscores, V1 and V2 free of backslashes and line
    feeds); with V1 = V2 this is the idempotence of one upsert. *)
Theorem X2_upsert_overwrites (D K V1 V2 : str) :
  literal_key K = true ->
  literal_value V1 = true -> no_lf V1 ->
  literal_value V2 = true -> no_lf V2 ->
  update_env_variable (update_env_variable D K V1) K V2
  = update_env_variable D K V2.
Proof.
  intros LK _ H1 _ H2. pose proof (literal_key_no_lf K LK) as HK.
  rewrite <- (unlines_lines (update_env_variable (update_env_variable D K V1) K V2)).
  rewrite <- (unlines_lines (update_env_variable D K V2)).
  rewrite !update_env_variable_lines by assumption.
  now rewrite upsert_lines_twice.
Qed.

Lemma X2_witness :
  update_env_variable (update_env_variable (py "A=0") (py "K") (py "1")) (py "K") (py "2")
  = update_env_variable (py "A=0") (py "K") (py "2").
Proof.
  apply (X2_upsert_overwrites (py "A=0") (py "K") (py "1") (py "2"));
    try reflexivity; no_lf_literal.
Defined.

(** X3: upserts of two different keys commute as soon as the content
    assigns one of them (keys made of capital letters and underscores,
    values free of backslashes and line feeds).  When it assigns neither,
    both are appended and the order of the two calls is the order of the
    two new lines. *)
Theorem X3_upserts_commute (D K1 V1 K2 V2 : str) :
  literal_key K1 = true -> literal_value V1 = true -> no_lf V1 ->
  literal_key K2 = true -> literal_value V2 = true -> no_lf V2 ->
  K1 <> K2 ->
  existsb (assigns K1) (lines D) || existsb (assigns K2) (lines D) = true ->
  update_env_variable (update_env_variable D K2 V2) K1 V1
  = update_env_variable (update_env_variable D K1 V1) K2 V2.
Proof.
  intros LK1 _ LV1 LK2 _ LV2 Hne Hex.
  pose proof (literal_key_no_lf K1 LK1) as L1.
  pose proof (literal_key_no_eq K1 LK1) as E1.
  pose proof (literal_key_no_lf K2 LK2) as L2.
  pose proof (literal_key_no_eq K2 LK2) as E2.
  rewrite <- (unlines_lines (update_env_variable (update_env_variable D K2 V2) K1 V1)).
  rewrite <- (unlines_lines (update_env_variable (update_env_variable D K1 V1) K2 V2)).
  rewrite !update_env_variable_lines by assumption.
  now rewrite upsert_lines_commute.
Qed.

Lemma X3_witness :
  update_env_variable (update_env_variable (py "A=0") (py "B") (py "2")) (py "A") (py "1")
  = update_env_variable (update_env_variable (py "A=0") (py "A") (py "1")) (py "B") (py "2").
Proof.
  apply (X3_upserts_commute (py "A=0") (py "A") (py "1") (py "B") (py "2"));
    try reflexivity; try no_lf_literal.
  vm_compute. discriminate.
Defined.

Example appended_keys_do_not_commute :
  update_env_variable (update_env_variable [] (py "B") (py "2")) (py "A") (py "1")
  <> update_env_variable (update_env_variable [] (py "A") (py "1")) (py "B") (py "2").
Proof. vm_compute. discriminate. Qed.

(** X4: an upsert of one key never changes the credential status of
    another.  For different keys K and K' made of capital letters and
    underscores and V' free of backslashes and line feeds, the credential
    check decides K on the content after the upsert of K'=V' as it does on
    the content before. *)
Theorem X4_upsert_keeps_other_credentials (D K K' V' : str) :
  literal_key K = true -> literal_key K' = true ->
  literal_value V' = true -> no_lf V' -> K <> K' ->
  key_missing (update_env_variable D K' V') K = key_missing D K.
Proof.
  intros HK HK' _ LV Hne.
  pose proof (literal_key_no_lf K HK) as LK.
  pose proof (literal_key_no_eq K HK) as EK.
  pose proof (literal_key_no_lf K' HK') as LK'.
  pose proof (literal_key_no_eq K' HK') as EK'.
  rewrite !key_missing_first_value by assumption.
  unfold first_value_missing.
  rewrite update_env_variable_lines by assumption.
  now rewrite first_value_upsert_other.
Qed.

Lemma X4_witness :
  key_missing
    (update_env_variable (py "OPENAI_API_KEY=sk") (py "FAST_LLM") (py "openai:gpt-4o-mini"))
    (py "OPENAI_API_KEY")
  = key_missing (py "OPENAI_API_KEY=sk") (py "OPENAI_API_KEY").
Proof.
  apply (X4_upsert_keeps_other_credentials (py "OPENAI_API_KEY=sk")
           (py "OPENAI_API_KEY") (py "FAST_LLM") (py "openai:gpt-4o-mini"));
    try reflexivity; try no_lf_literal.
  vm_compute. discriminate.
Defined.

(** * Further properties of the loop of [apply_config] *)

Section ApplyMore.

Lemma first_value_fold_other (cfg : list (str * str)) (K : str) (ls : list str) :
  no_eq K -> Forall wf_entry cfg -> ~ In K (map fst cfg) ->
  first_value K (fold_left (fun acc kv => upsert_lines (fst kv) (snd kv) acc) cfg ls)
  = first_value K ls.
Proof.
  intros HK. revert ls.
  induction cfg as [|[k v] cfg IH]; intros ls Hwf Hnin; [reflexivity|].
  inversion Hwf as [|? ? [_ [Hk _]] Hrest]; subst. simpl in *.
  rewrite IH by tauto. apply first_value_upsert_other; try assumption.
  intros ->. apply Hnin. now left.
Qed.

Lemma key_missing_apply_other (cfg : list (str * str)) (D K : str) :
  no_lf K -> no_eq K -> Forall wf_entry cfg -> ~ In K (map fst cfg) ->
  key_missing (apply_entries D cfg) K = key_missing D K.
Proof.
  intros LK EK Hwf Hnin.
  rewrite !key_missing_first_value by assumption.
  unfold first_value_missing.
  rewrite apply_entries_lines by assumption.
  now rewrite first_value_fold_other.
Qed.

Lemma key_missing_empty (K : str) : key_missing [] K = true.
Proof.
  unfold key_missing. simpl. reflexivity.
Qed.



End ApplyMore.

(** X5: what [apply_config] leaves for each entry.  For entries with
    distinct keys made of capital letters and underscores and values free
    of backslashes and line feeds,
    and any content D, after the loop every entry (k, v) has a line [k=v]
    in the text, every line that assigns k reads [k=v], and the credential
    check run on k reports it missing exactly when v is empty or white
    space only. *)
Theorem X5_apply_settles_every_entry
    (cfg : list (str * str)) (D k v : str) :
  wf_config cfg -> literal_entries cfg = true -> In (k, v) cfg ->
  In (assignment k v) (lines (apply_entries D cfg))
  /\ (forall l, In l (lines (apply_entries D cfg)) ->
                assigns k l = true -> l = assignment k v)
  /\ key_missing (apply_entries D cfg) k = blank v.
Proof.
  intros Hwf _ Hin.
  assert (S : settled (lines (apply_entries D cfg)) (k, v)).
  { rewrite apply_entries_lines by apply Hwf.
    pose proof (fold_upsert_all_settled cfg (lines D) Hwf) as H.
    rewrite Forall_forall in H. now apply H. }
  assert (Lk : no_lf k).
  { destruct Hwf as [_ Hall]. rewrite Forall_forall in Hall.
    now destruct (Hall _ Hin). }
  split; [|split].
  - destruct S as [Hex Hall]. simpl in *.
    apply existsb_exists in Hex. destruct Hex as [l [Hl Ha]].
    now rewrite <- (Hall l Hl Ha).
  - apply S.
  - now apply missing_of_settled.
Qed.

Lemma X5_witness :
  In (assignment (py "B") (py "8"))
     (lines (apply_entries (py ("B=0" ++ nl ++ "x" ++ nl ++ "B=1")%string)
               [(py "A", py "7"); (py "B", py "8")])).
Proof.
  refine (proj1 (X5_apply_settles_every_entry
                   [(py "A", py "7"); (py "B", py "8")]
                   (py ("B=0" ++ nl ++ "x" ++ nl ++ "B=1")%string)
                   (py "B") (py "8") _ _ _)).
  - apply wf_configb_wf. vm_compute. reflexivity.
  - reflexivity.
  - right. left. reflexivity.
Defined.

(** X6: [apply_config] never changes the credential status of a key it
    does not write.  For entries with distinct keys made of capital
    letters and underscores and values free of backslashes and line feeds,
    and a key K of capital letters and underscores that is not among their
    keys, the credential check decides K on the patched text as on the
    text before. *)
Theorem X6_apply_keeps_other_credentials
    (cfg : list (str * str)) (D K : str) :
  wf_config cfg -> literal_entries cfg = true ->
  literal_key K = true -> ~ In K (map fst cfg) ->
  key_missing (apply_entries D cfg) K = key_missing D K.
Proof.
  intros [_ Hwf] _ HK Hnin.
  apply key_missing_apply_other; try assumption.
  - now apply literal_key_no_lf.
  - now apply literal_key_no_eq.
Qed.

Lemma X6_witness :
  key_missing
    (apply_entries (py "KEY= ") [(py "A", py "7"); (py "B", py "8")]) (py "KEY")
  = key_missing (py "KEY= ") (py "KEY").
Proof.
  apply (X6_apply_keeps_other_credentials
           [(py "A", py "7"); (py "B", py "8")] (py "KEY= ") (py "KEY")).
  - apply wf_configb_wf. vm_compute. reflexivity.
  - reflexivity.
  - reflexivity.
  - simpl. intros [H|[H|[]]]; vm_compute in H; discriminate H.
Defined.



(** * Further properties of the credential check *)

Section CheckMore.

Lemma line_value_Some (K l v : str) :
  line_value K l = Some v -> l = assignment K v /\ v <> [].
Proof.
  unfold line_value. destruct (assigns K l) eqn:E; [|discriminate].
  apply starts_with_split in E.
  destruct (skipn (length (K ++ [EQ])) l) as [|c w] eqn:S; [discriminate|].
  intros H. inversion H; subst v. split; [|discriminate].
  rewrite E at 1. unfold assignment. now rewrite <- app_assoc.
Qed.

Lemma first_value_Some (K v : str) (ls : list str) :
  first_value K ls = Some v -> In (assignment K v) ls /\ v <> [].
Proof.
  induction ls as [|l ls IH]; [discriminate|]. simpl.
  destruct (line_value K l) as [w|] eqn:E.
  - intros H. inversion H; subst. apply line_value_Some in E.
    destruct E as [-> Hv]. split; [now left | assumption].
  - intros H. destruct (IH H) as [Hin Hv]. split; [now right | assumption].
Qed.

Lemma gives_value_assigns (K l : str) : gives_value K l = true -> assigns K l = true.
Proof. unfold gives_value. intros H. now apply andb_true_iff in H. Qed.

Lemma existsb_gives_value_absent (K : str) (ls : list str) :
  existsb (assigns K) ls = false -> existsb (gives_value K) ls = false.
Proof.
  induction ls as [|l ls IH]; [reflexivity|]. simpl.
  intros H. apply orb_false_iff in H. destruct H as [Hl Hls].
  rewrite IH by assumption. unfold gives_value. now rewrite Hl.
Qed.

Lemma first_value_absent (K : str) (ls : list str) :
  existsb (assigns K) ls = false -> first_value K ls = None.
Proof.
  induction ls as [|l ls IH]; [reflexivity|]. simpl.
  intros H. apply orb_false_iff in H. destruct H as [Hl Hls].
  rewrite line_value_not_assigned by assumption. now apply IH.
Qed.

Lemma count_assigns_cons (K l : str) (ls : list str) :
  count_assigns K (l :: ls)
  = (if assigns K l then 1 else 0) + count_assigns K ls.
Proof. unfold count_assigns. simpl. now destruct (assigns K l). Qed.

Lemma count_zero_absent (K : str) (ls : list str) :
  count_assigns K ls = 0 -> existsb (assigns K) ls = false.
Proof.
  induction ls as [|l ls IH]; [reflexivity|].
  rewrite count_assigns_cons. simpl.
  destruct (assigns K l); simpl; [discriminate | exact IH].
Qed.

Lemma first_value_unique (K : str) (ls : list str) :
  count_assigns K ls <= 1 ->
  match first_value K ls with
  | None => true
  | Some v => blank v
  end = negb (existsb (gives_value K) ls).
Proof.
  induction ls as [|l ls IH]; [reflexivity|].
  rewrite count_assigns_cons. intros Hc. simpl.
  destruct (assigns K l) eqn:E.
  - assert (Habs : existsb (assigns K) ls = false)
      by (apply count_zero_absent; lia).
    rewrite (existsb_gives_value_absent K ls Habs), orb_false_r.
    unfold line_value, gives_value. rewrite E. simpl.
    destruct (skipn (length (K ++ [EQ])) l) as [|c w].
    + now rewrite first_value_absent.
    + now rewrite negb_involutive.
  - rewrite line_value_not_assigned by assumption.
    unfold gives_value at 1. rewrite E. simpl. apply IH. simpl in Hc. lia.
Qed.

End CheckMore.

(** X10: a key that the credential check lets pass is really set.  When
    the check does not report K, a key made of capital letters and
    underscores, as missing, some line
    of the content reads [K=v] from its first code point with a [v] that is
    not empty and not white space only; so a key that stands only behind a
    comment mark or inside another line is always reported missing. *)
Theorem X10_present_key_has_a_value (D K : str) :
  literal_key K = true -> key_missing D K = false ->
  exists v, In (assignment K v) (lines D) /\ v <> [] /\ blank v = false.
Proof.
  intros LK H. pose proof (literal_key_no_lf K LK) as HK.
  rewrite key_missing_first_value in H by assumption.
  unfold first_value_missing in H.
  destruct (first_value K (lines D)) as [v|] eqn:E; [|discriminate].
  apply first_value_Some in E. destruct E as [Hin Hv]. now exists v.
Qed.

Lemma X10_witness :
  exists v, In (assignment (py "K") v) (lines (py ("# K=x" ++ nl ++ "K=abc")%string))
            /\ v <> [] /\ blank v = false.
Proof.
  apply (X10_present_key_has_a_value (py ("# K=x" ++ nl ++ "K=abc")%string) (py "K"));
    reflexivity.
Defined.

(** X11: on a file without duplicate lines the check is exact.  When at
    most one line of the content assigns K, a key made of capital letters
    and underscores, K is
    reported missing exactly when no line reads [K=VALUE] with a VALUE that
    is neither empty nor white space only. *)
Theorem X11_check_exact_without_duplicates (D K : str) :
  literal_key K = true -> count_assigns K (lines D) <= 1 ->
  key_missing D K = negb (existsb (gives_value K) (lines D)).
Proof.
  intros LK Hc. rewrite key_missing_first_value by now apply literal_key_no_lf.
  unfold first_value_missing. now apply first_value_unique.
Qed.

Lemma X11_witness :
  key_missing (py ("A=1" ++ nl ++ "K=  ")%string) (py "K")
  = negb (existsb (gives_value (py "K")) (lines (py ("A=1" ++ nl ++ "K=  ")%string))).
Proof.
  apply (X11_check_exact_without_duplicates (py ("A=1" ++ nl ++ "K=  ")%string) (py "K")).
  - reflexivity.
  - vm_compute. apply le_n.
Defined.

(** * Further properties of the catalog *)

Section CatalogMore.

Lemma catalog_forall (b : config_data -> bool) :
  forallb (fun p => b (snd p)) get_configurations = true ->
  forall id cd, In (id, cd) get_configurations -> b cd = true.
Proof.
  intros H id cd Hin. rewrite forallb_forall in H. exact (H (id, cd) Hin).
Qed.

Lemma not_in_of_existsb (K : str) (ks : list str) :
  existsb (str_eqb K) ks = false -> ~ In K ks.
Proof.
  intros H Hin. assert (existsb (str_eqb K) ks = true); [|congruence].
  apply existsb_exists. exists K. split; [assumption | now apply str_eqb_eq].
Qed.

Lemma credentials_apart (cd : config_data) (K : str) :
  credentials_apartb cd = true -> In K (required_keys cd) ->
  no_lf K /\ no_eq K /\ ~ In K (map fst (config cd)).
Proof.
  unfold credentials_apartb. intros H Hin.
  rewrite forallb_forall in H. specialize (H K Hin).
  apply andb_true_iff in H. destruct H as [H Hnin].
  apply andb_true_iff in H. destruct H as [Hlf Heq].
  split; [now apply no_lfb_spec|]. split; [now apply no_eqb_spec|].
  apply not_in_of_existsb. now apply negb_true_iff.
Qed.

Lemma catalog_credentials_apart (id : str) (cd : config_data) :
  In (id, cd) get_configurations -> credentials_apartb cd = true.
Proof. apply (catalog_forall credentials_apartb). vm_compute. reflexivity. Qed.

Lemma catalog_missing_after_apply (id : str) (cd : config_data) (D : str) :
  In (id, cd) get_configurations ->
  missing_keys_of (apply_entries D (config cd)) (required_keys cd)
  = missing_keys_of D (required_keys cd).
Proof.
  intros Hin. rewrite !missing_keys_of_filter. apply filter_ext_in.
  intros K HK.
  destruct (credentials_apart cd K (catalog_credentials_apart id cd Hin) HK)
    as [Hlf [Heq Hnin]].
  apply key_missing_apply_other; try assumption.
  now destruct (catalog_wf id cd Hin) as [[_ Hwf] _].
Qed.

Lemma backup_then_apply_state (cd : config_data) (st : fs) :
  backup_then_apply cd st
  = (inr tt,
     match dot_env st with
     | Some c =>
         Fs (Some (apply_entries c (config cd))) (Some c)
            (trace st ++ [Wrote DotEnvBackup c;
                          Wrote DotEnv (apply_entries c (config cd))])
     | None =>
         Fs (Some (apply_entries [] (config cd))) (dot_env_backup st)
            (trace st ++ [Wrote DotEnv (apply_entries [] (config cd))])
     end).
Proof.
  destruct (backup_then_apply_run cd st) as [st' [Hrun Hst']].
  rewrite Hrun. unfold backed_up_then_applied in Hst'.
  destruct (dot_env st); now rewrite Hst'.
Qed.

End CatalogMore.

(** X7: applying a preset of the catalog never sets or disturbs a
    credential.  When [.env] exists, the credential check of a preset gives
    after the backup and the patch of that preset the very list of missing
    keys it gave before; the keys [main] tells the user to add by hand are
    still the ones to add. *)
Theorem X7_missing_keys_survive_apply (id : str) (cd : config_data) (st : fs) (c : str) :
  In (id, cd) get_configurations ->
  dot_env st = Some c ->
  fst (check_required_keys cd (snd (backup_then_apply cd st)))
  = fst (check_required_keys cd st).
Proof.
  intros Hin Henv.
  rewrite backup_then_apply_state, !check_required_keys_run, Henv. simpl.
  now rewrite (catalog_missing_after_apply id cd c Hin).
Qed.

Lemma X7_witness :
  fst (check_required_keys
         (ConfigData (py "OpenAI (Direct)")
            [ (py "FAST_LLM", py "openai:gpt-4o-mini");
              (py "SMART_LLM", py "openai:gpt-4o");
              (py "STRATEGIC_LLM", py "openai:o1-mini") ]
            [ py "OPENAI_API_KEY" ]
            (py "Direct OpenAI API access with their latest models."))
         (snd (backup_then_apply
                 (ConfigData (py "OpenAI (Direct)")
                    [ (py "FAST_LLM", py "openai:gpt-4o-mini");
                      (py "SMART_LLM", py "openai:gpt-4o");
                      (py "STRATEGIC_LLM", py "openai:o1-mini") ]
                    [ py "OPENAI_API_KEY" ]
                    (py "Direct OpenAI API access with their latest models."))
                 (Fs (Some (py "OPENAI_API_KEY=sk")) None []))))
  = fst (check_required_keys
           (ConfigData (py "OpenAI (Direct)")
              [ (py "FAST_LLM", py "openai:gpt-4o-mini");
                (py "SMART_LLM", py "openai:gpt-4o");
                (py "STRATEGIC_LLM", py "openai:o1-mini") ]
              [ py "OPENAI_API_KEY" ]
              (py "Direct OpenAI API access with their latest models."))
           (Fs (Some (py "OPENAI_API_KEY=sk")) None [])).
Proof.
  apply (X7_missing_keys_survive_apply (py "openai") _
           (Fs (Some (py "OPENAI_API_KEY=sk")) None []) (py "OPENAI_API_KEY=sk")).
  - simpl. right. right. right. left. reflexivity.
  - reflexivity.
Defined.

(** X8: without a [.env] file every preset of the catalog passes the
    credential check, which returns the empty list; once the preset is
    applied the file exists, holds none of the credentials, and the same
    check returns every required key of the preset. *)
Theorem X8_absent_file_hides_missing_keys (id : str) (cd : config_data) (st : fs) :
  In (id, cd) get_configurations ->
  dot_env st = None ->
  fst (check_required_keys cd st) = inr []
  /\ fst (check_required_keys cd (snd (backup_then_apply cd st)))
     = inr (required_keys cd).
Proof.
  intros Hin Henv.
  rewrite backup_then_apply_state, !check_required_keys_run, Henv. simpl.
  split; [reflexivity|]. f_equal.
  rewrite (catalog_missing_after_apply id cd [] Hin).
  rewrite missing_keys_of_filter.
  induction (required_keys cd) as [|K ks IH]; [reflexivity|].
  cbn [filter]. rewrite key_missing_empty. now rewrite IH.
Qed.

Lemma X8_witness :
  fst (check_required_keys
         (ConfigData (py "OpenAI (Direct)")
            [ (py "FAST_LLM", py "openai:gpt-4o-mini");
              (py "SMART_LLM", py "openai:gpt-4o");
              (py "STRATEGIC_LLM", py "openai:o1-mini") ]
            [ py "OPENAI_API_KEY" ]
            (py "Direct OpenAI API access with their latest models."))
         (Fs None None []))
  = inr [].
Proof.
  refine (proj1 (X8_absent_file_hides_missing_keys (py "openai") _
                   (Fs None None []) _ _)).
  - simpl. right. right. right. left. reflexivity.
  - reflexivity.
Defined.

(** X18: the keys and values of the catalog are safe to interpolate.  In
    every preset of the catalog each key written into a pattern, an entry
    key or a required key, is made of capital letters and underscores only,
    and no value holds a backslash: the unescaped key is read by [re] as
    itself and the replacement is copied as it stands. *)
Theorem X18_catalog_is_literal (id : str) (cd : config_data) (k v K : str) :
  In (id, cd) get_configurations ->
  (In (k, v) (config cd) -> literal_key k = true /\ literal_value v = true)
  /\ (In K (required_keys cd) -> literal_key K = true).
Proof.
  intros Hin.
  assert (H : literal_preset cd = true).
  { revert id cd Hin. apply (catalog_forall literal_preset). vm_compute. reflexivity. }
  unfold literal_preset in H. apply andb_true_iff in H. destruct H as [Hc Hr].
  rewrite forallb_forall in Hc, Hr. split.
  - intros Hkv. specialize (Hc (k, v) Hkv). now apply andb_true_iff in Hc.
  - apply Hr.
Qed.

Lemma X18_witness :
  literal_key (py "OLLAMA_BASE_URL") = true
  /\ literal_value (py "http://localhost:11434") = true.
Proof.
  refine (proj1 (X18_catalog_is_literal (py "ollama")
                   (ConfigData (py "Ollama (Local)")
                      [ (py "FAST_LLM", py "ollama:llama3");
                        (py "SMART_LLM", py "ollama:llama3");
                        (py "STRATEGIC_LLM", py "ollama:llama3");
                        (py "OLLAMA_BASE_URL", py "http://localhost:11434") ]
                      [ ]
                      (py "Local Ollama models (requires Ollama to be running locally)."))
                   (py "OLLAMA_BASE_URL") (py "http://localhost:11434") [] _) _).
  - simpl. do 4 right. left. reflexivity.
  - simpl. do 3 right. left. reflexivity.
Defined.

(** * Further properties of [main] *)

Section MainMore.

Lemma main_unfold (stdin : list input) (st : fs) :
  main stdin st = main_loop get_configurations stdin st.
Proof. unfold main, bind. now rewrite list_configurations_run. Qed.

Lemma main_loop_rejected
    (configurations : list (str * config_data)) (i : input) (rest : list input) (st : fs) :
  rejected configurations i = true ->
  main_loop configurations (i :: rest) st = main_loop configurations rest st.
Proof.
  destruct i as [l|]; [|discriminate]. simpl.
  destruct (as_choice l) as [|choice_num|]; [discriminate | | reflexivity].
  intros H. apply negb_true_iff in H. now rewrite H.
Qed.

Lemma in_range_nth (configurations : list (str * config_data)) (choice_num : Z) :
  (1 <= choice_num <= Z.of_nat (length configurations))%Z ->
  exists id cd, nth_error configurations (Z.to_nat (choice_num - 1)) = Some (id, cd).
Proof.
  intros H.
  destruct (nth_error configurations (Z.to_nat (choice_num - 1))) as [[id cd]|] eqn:E.
  - now exists id, cd.
  - apply nth_error_None in E. lia.
Qed.

End MainMore.

(** X14: input that is not a number, or a number outside 1..6, is turned
    down without any effect: [main] run on such inputs followed by
    [stdin] does what it does on [stdin] alone. *)
Theorem X14_rejected_input_is_skipped (bad stdin : list input) (st : fs) :
  forallb (rejected get_configurations) bad = true ->
  main (bad ++ stdin) st = main stdin st.
Proof.
  intros H. rewrite !main_unfold.
  induction bad as [|i bad IH]; [reflexivity|].
  simpl in H. apply andb_true_iff in H. destruct H as [Hi Hbad].
  change ((i :: bad) ++ stdin) with (i :: (bad ++ stdin)).
  rewrite main_loop_rejected by assumption. now apply IH.
Qed.

Lemma X14_witness :
  main ([Typed (Line ChoiceInvalid false); Typed (Line (ChoiceInt 0) true);
         Typed (Line (ChoiceInt 99) false)]
        ++ [Typed (Line ChoiceQuit false)])
       (Fs (Some (py "A=1")) None [])
  = main [Typed (Line ChoiceQuit false)] (Fs (Some (py "A=1")) None []).
Proof.
  apply (X14_rejected_input_is_skipped
           [Typed (Line ChoiceInvalid false); Typed (Line (ChoiceInt 0) true);
            Typed (Line (ChoiceInt 99) false)]
           [Typed (Line ChoiceQuit false)]
           (Fs (Some (py "A=1")) None [])).
  reflexivity.
Defined.

(** X15: a number from 1 to the size of the catalog always names a
    preset, the one at that place in the order of the catalog, and [main]
    applies that preset and no other: when its credential check finds no
    missing key, or the next line typed confirms with [y], [main] returns
    normally after the backup and the patch of exactly that preset. *)
Theorem X15_choice_applies_that_preset
    (l : line) (choice_num : Z) (rest : list input) (st : fs) :
  as_choice l = ChoiceInt choice_num ->
  (1 <= choice_num <= Z.of_nat (length get_configurations))%Z ->
  exists id cd,
    nth_error get_configurations (Z.to_nat (choice_num - 1)) = Some (id, cd)
    /\ ((fst (check_required_keys cd st) = inr []
         \/ exists confirm rest', rest = Typed confirm :: rest' /\ is_yes confirm = true) ->
        fst (main (Typed l :: rest) st) = inr tt
        /\ backed_up_then_applied cd st (snd (main (Typed l :: rest) st))).
Proof.
  intros Hl Hrange.
  destruct (in_range_nth get_configurations choice_num Hrange) as [id [cd Hnth]].
  exists id, cd. split; [exact Hnth|]. intros Hgo.
  rewrite main_unfold. cbn [main_loop]. rewrite Hl.
  assert (R : ((1 <=? choice_num) && (choice_num <=? Z.of_nat (length get_configurations)))%Z
              = true).
  { apply andb_true_iff. split; apply Z.leb_le; lia. }
  rewrite R, Hnth. unfold bind.
  rewrite check_required_keys_run in *. simpl fst in Hgo.
  destruct (backup_then_apply_run cd st) as [st' [Hrun Hst']].
  destruct (match dot_env st with
            | Some content => missing_keys_of content (required_keys cd)
            | None => []
            end) as [|K ks].
  - rewrite Hrun. now split.
  - destruct Hgo as [Hgo|[confirm [rest' [-> Hyes]]]]; [discriminate|].
    rewrite Hyes, Hrun. now split.
Qed.

Lemma X15_witness :
  exists id cd,
    nth_error get_configurations (Z.to_nat (5 - 1)) = Some (id, cd)
    /\ ((fst (check_required_keys cd (Fs (Some (py "A=1")) None [])) = inr []
         \/ exists confirm rest',
              @nil input = Typed confirm :: rest' /\ is_yes confirm = true) ->
        fst (main (Typed (Line (ChoiceInt 5) false) :: [])
               (Fs (Some (py "A=1")) None [])) = inr tt
        /\ backed_up_then_applied cd (Fs (Some (py "A=1")) None [])
             (snd (main (Typed (Line (ChoiceInt 5) false) :: [])
                     (Fs (Some (py "A=1")) None [])))).
Proof.
  apply (X15_choice_applies_that_preset (Line (ChoiceInt 5) false) 5 []
           (Fs (Some (py "A=1")) None [])).
  - reflexivity.
  - vm_compute. split; discriminate.
Defined.

(** X16: declining the confirmation changes nothing.  When the chosen
    preset has missing keys and the line typed at [Continue anyway?] is not
    [y], [main] goes back to the selection prompt with both files
    untouched: it does what it does on the inputs that follow.  Ctrl-C at
    that prompt ends [main] normally, with both files untouched too. *)
Theorem X16_declined_confirmation
    (l confirm : line) (choice_num : Z) (id K : str) (cd : config_data)
    (ks : list str) (rest : list input) (st : fs) :
  as_choice l = ChoiceInt choice_num ->
  (1 <= choice_num)%Z ->
  nth_error get_configurations (Z.to_nat (choice_num - 1)) = Some (id, cd) ->
  fst (check_required_keys cd st) = inr (K :: ks) ->
  is_yes confirm = false ->
  main (Typed l :: Typed confirm :: rest) st = main rest st
  /\ main (Typed l :: KeyboardInterrupt :: rest) st = (inr tt, st).
Proof.
  intros Hl Hpos Hnth Hmiss Hno.
  assert (R : ((1 <=? choice_num) && (choice_num <=? Z.of_nat (length get_configurations)))%Z
              = true).
  { apply andb_true_iff. split; apply Z.leb_le; [assumption|].
    assert (Z.to_nat (choice_num - 1) < length get_configurations)
      by (apply nth_error_Some; congruence).
    lia. }
  rewrite !main_unfold. cbn [main_loop]. rewrite Hl, R, Hnth. unfold bind.
  rewrite check_required_keys_run in *. simpl fst in Hmiss.
  injection Hmiss as Hm. rewrite Hm. cbv iota. rewrite Hno. now split.
Qed.

Lemma X16_witness :
  main (Typed (Line (ChoiceInt 4) false) :: Typed (Line ChoiceInvalid false)
        :: [Typed (Line ChoiceQuit false)])
       (Fs (Some (py "A=1")) None [])
  = main [Typed (Line ChoiceQuit false)] (Fs (Some (py "A=1")) None []).
Proof.
  refine (proj1 (X16_declined_confirmation
                   (Line (ChoiceInt 4) false) (Line ChoiceInvalid false) 4
                   (py "openai") (py "OPENAI_API_KEY") _ []
                   [Typed (Line ChoiceQuit false)]
                   (Fs (Some (py "A=1")) None []) _ _ _ _ _)).
  - reflexivity.
  - vm_compute. discriminate.
  - reflexivity.
  - reflexivity.
  - reflexivity.
Defined.



(** X19: applying a dict twice is applying it once, in the catalog or
    not.  For entries with distinct keys made of capital letters and
    underscores and values free of backslashes and line feeds, and for
    every content, the loop of [apply_config] run on its own result
    returns that result unchanged. *)
Theorem X19_apply_twice_any_entries (cfg : list (str * str)) (D : str) :
  wf_config cfg -> literal_entries cfg = true ->
  apply_entries (apply_entries D cfg) cfg = apply_entries D cfg.
Proof. intros Hwf _. now apply apply_entries_idempotent. Qed.

Lemma X19_witness :
  apply_entries
    (apply_entries (py ("B=0" ++ nl ++ "x" ++ nl ++ "B=1")%string)
       [(py "A", py "7"); (py "B", py "8")])
    [(py "A", py "7"); (py "B", py "8")]
  = apply_entries (py ("B=0" ++ nl ++ "x" ++ nl ++ "B=1")%string)
      [(py "A", py "7"); (py "B", py "8")].
Proof.
  apply (X19_apply_twice_any_entries [(py "A", py "7"); (py "B", py "8")]
           (py ("B=0" ++ nl ++ "x" ++ nl ++ "B=1")%string)).
  - apply wf_configb_wf. vm_compute. reflexivity.
  - reflexivity.
Defined.
